(** * unified2: record framing and record decoders

    A shallow embedding of [unified2.go] (package [unified2], a decoder for
    the unified v2 log files written by Snort and Suricata) and the
    properties of its framer ([ReadRawRecord]), its three decoders
    ([DecodeEventRecord], [DecodePacketRecord], [DecodeExtraDataRecord])
    and its dispatcher ([ReadRecord]).

    Conventions.
    - A Go [uintN] is a [Z]; every value built here comes from [N] bytes
      and is therefore in range (lemmas [Uint32_range], [Uint16_range]
      and [Uint8_range]).
    - A Go [[]byte] is a [list byte]; the nil slice is [[]].
    - A Go function returning a pointer and an [error], whose every
      [return] gives either a value and [nil] or [nil] and a non-nil
      error, is a [result T].  [ReadRecord] also has [return nil, nil]; it is a
      [result (option RecordContainer)].
    - A [bytes.Buffer] over the record body is the list of unread bytes;
      reading is a small state-and-failure monad [Reader].
    - The [io.ReadWriteSeeker] is a regular file, an [os.File]: its
      contents and a read offset.  One read of it gives at most [maxRW]
      (2^30) bytes. *)

From Stdlib Require Import ZArith List Bool Lia.
From Stdlib Require Import Strings.Byte.
Import ListNotations.

Local Open Scope Z_scope.

(** ** Wire format table *)

Definition UNIFIED2_PACKET : Z := 2.
Definition UNIFIED2_IDS_EVENT : Z := 7.
Definition UNIFIED2_IDS_EVENT_IP6 : Z := 72.
Definition UNIFIED2_IDS_EVENT_V2 : Z := 104.
Definition UNIFIED2_IDS_EVENT_IP6_V2 : Z := 105.
Definition UNIFIED2_EXTRA_DATA : Z := 110.

Definition PACKET_RECORD_HDR_LEN : nat := 28.
Definition EXTRA_DATA_RECORD_HDR_LEN : nat := 32.

Record RawHeader := mkRawHeader {
  hdr_Type : Z;
  hdr_Len : Z
}.

Record RawRecord := mkRawRecord {
  raw_Type : Z;
  raw_Data : list byte
}.

Record EventRecord := mkEventRecord {
  SensorId : Z;
  EventId : Z;
  EventSecond : Z;
  EventMicrosecond : Z;
  SignatureId : Z;
  GeneratorId : Z;
  SignatureRevision : Z;
  ClassificationId : Z;
  Priority : Z;
  IpSource : list byte;
  IpDestination : list byte;
  SportItype : Z;
  DportIcode : Z;
  Protocol : Z;
  ImpactFlag : Z;
  Impact : Z;
  Blocked : Z;
  MplsLabel : Z;
  VlanId : Z
}.

Record PacketRecord := mkPacketRecord {
  pkt_SensorId : Z;
  pkt_EventId : Z;
  pkt_EventSecond : Z;
  pkt_PacketSecond : Z;
  pkt_PacketMicrosecond : Z;
  pkt_LinkType : Z;
  pkt_Length : Z;
  pkt_Data : list byte
}.

Record ExtraDataRecord := mkExtraDataRecord {
  ext_EventType : Z;
  ext_EventLength : Z;
  ext_SensorId : Z;
  ext_EventId : Z;
  ext_EventSecond : Z;
  ext_Type : Z;
  ext_DataType : Z;
  ext_DataLength : Z;
  ext_Data : list byte
}.

(** The dynamic type held by [RecordContainer.Record]. *)
Inductive Decoded :=
| DecodedEvent (event : EventRecord)
| DecodedPacket (packet : PacketRecord)
| DecodedExtraData (extra : ExtraDataRecord).

Record RecordContainer := mkRecordContainer {
  rc_Type : Z;
  rc_Record : Decoded
}.

(** The error values the package can return: [io.EOF],
    [io.ErrUnexpectedEOF] and the package's own [DecodingError]. *)
Inductive error := EOF | ErrUnexpectedEOF | DecodingError.

Inductive result (A : Type) :=
| Ok (a : A)
| Err (e : error).
Arguments Ok {A} a.
Arguments Err {A} e.

(** ** Big-endian integers ([binary.BigEndian]) *)

Definition byte_val (b : byte) : Z := Z.of_N (Byte.to_N b).

Definition Uint8 (b : list byte) : Z :=
  match b with
  | b0 :: _ => byte_val b0
  | _ => 0
  end.

Definition Uint16 (b : list byte) : Z :=
  match b with
  | b0 :: b1 :: _ => Z.lor (byte_val b1) (Z.shiftl (byte_val b0) 8)
  | _ => 0
  end.

Definition Uint32 (b : list byte) : Z :=
  match b with
  | b0 :: b1 :: b2 :: b3 :: _ =>
      Z.lor (Z.lor (Z.lor (byte_val b3) (Z.shiftl (byte_val b2) 8))
                   (Z.shiftl (byte_val b1) 16))
            (Z.shiftl (byte_val b0) 24)
  | _ => 0
  end.

(** ** Reading from a [bytes.Buffer] *)

Module Reader.

(** The state is the unread part of the buffer; [None] is a failed
    read, after which every decoder jumps to its [error] label. *)
Definition t (A : Type) : Type := list byte -> option (A * list byte).

Definition ret {A} (a : A) : t A := fun buf => Some (a, buf).

Definition bind {A B} (m : t A) (k : A -> t B) : t B :=
  fun buf =>
    match m buf with
    | Some (a, buf') => k a buf'
    | None => None
    end.

(** [io.ReadFull] on the buffer for [n] bytes: all [n] or an error. *)
Definition bytes (n : nat) : t (list byte) :=
  fun buf =>
    if (length buf <? n)%nat then None
    else Some (firstn n buf, skipn n buf).

End Reader.

Declare Scope reader_scope.
Delimit Scope reader_scope with reader.
Notation "x <- m ;; k" := (Reader.bind m (fun x => k))
  (at level 61, m at next level, right associativity) : reader_scope.
Notation "' pat <- m ;; k" := (Reader.bind m (fun x => match x with pat => k end))
  (at level 61, pat pattern, m at next level, right associativity) : reader_scope.

Local Open Scope reader_scope.

(** [read(reader, &x)] for [x] a [uint32], [uint16], [uint8] and a
    [[]byte] of length [n]: [binary.Read] takes exactly the size of [x]
    from the reader and decodes it big-endian. *)
Definition read_uint32 : Reader.t Z :=
  b <- Reader.bytes 4 ;; Reader.ret (Uint32 b).

Definition read_uint16 : Reader.t Z :=
  b <- Reader.bytes 2 ;; Reader.ret (Uint16 b).

Definition read_uint8 : Reader.t Z :=
  b <- Reader.bytes 1 ;; Reader.ret (Uint8 b).

Definition read_slice (n : nat) : Reader.t (list byte) :=
  Reader.bytes n.

(** ** Event decoder *)

Definition IsEventType (recordType : Z) : bool :=
  (recordType =? UNIFIED2_IDS_EVENT)
  || (recordType =? UNIFIED2_IDS_EVENT_IP6)
  || (recordType =? UNIFIED2_IDS_EVENT_V2)
  || (recordType =? UNIFIED2_IDS_EVENT_IP6_V2).

(** The first [switch eventType]: source and destination addresses. *)
Definition read_addresses (eventType : Z) : Reader.t (list byte * list byte) :=
  if (eventType =? UNIFIED2_IDS_EVENT) || (eventType =? UNIFIED2_IDS_EVENT_V2)
  then
    src <- read_slice 4 ;;
    dst <- read_slice 4 ;;
    Reader.ret (src, dst)
  else if (eventType =? UNIFIED2_IDS_EVENT_IP6)
          || (eventType =? UNIFIED2_IDS_EVENT_IP6_V2)
  then
    src <- read_slice 16 ;;
    dst <- read_slice 16 ;;
    Reader.ret (src, dst)
  else Reader.ret ([], []).

(** The second [switch eventType]: the version 2 trailer.  Fields that
    are not read keep the zero value of [&EventRecord{}]. *)
Definition read_trailer (eventType : Z) : Reader.t (Z * Z) :=
  if (eventType =? UNIFIED2_IDS_EVENT_V2)
     || (eventType =? UNIFIED2_IDS_EVENT_IP6_V2)
  then
    mpls <- read_uint32 ;;
    vlan <- read_uint16 ;;
    Reader.ret (mpls, vlan)
  else Reader.ret (0, 0).

(** The body of [DecodeEventRecord] up to [return event, nil], with the
    reader left where the function leaves it. *)
Definition decode_event (eventType : Z) : Reader.t EventRecord :=
  sensorId <- read_uint32 ;;
  eventId <- read_uint32 ;;
  eventSecond <- read_uint32 ;;
  eventMicrosecond <- read_uint32 ;;
  signatureId <- read_uint32 ;;
  generatorId <- read_uint32 ;;
  signatureRevision <- read_uint32 ;;
  classificationId <- read_uint32 ;;
  priority <- read_uint32 ;;
  '(ipSource, ipDestination) <- read_addresses eventType ;;
  sportItype <- read_uint16 ;;
  dportIcode <- read_uint16 ;;
  protocol <- read_uint8 ;;
  impactFlag <- read_uint8 ;;
  impact <- read_uint8 ;;
  blocked <- read_uint8 ;;
  '(mplsLabel, vlanId) <- read_trailer eventType ;;
  Reader.ret
    (mkEventRecord sensorId eventId eventSecond eventMicrosecond
       signatureId generatorId signatureRevision classificationId priority
       ipSource ipDestination sportItype dportIcode
       protocol impactFlag impact blocked mplsLabel vlanId).

Definition DecodeEventRecord (eventType : Z) (data : list byte)
  : result EventRecord :=
  match decode_event eventType data with
  | Some (event, _) => Ok event
  | None => Err DecodingError
  end.

(** ** Packet decoder *)

Definition decode_packet (data : list byte) : Reader.t PacketRecord :=
  sensorId <- read_uint32 ;;
  eventId <- read_uint32 ;;
  eventSecond <- read_uint32 ;;
  packetSecond <- read_uint32 ;;
  packetMicrosecond <- read_uint32 ;;
  linkType <- read_uint32 ;;
  len <- read_uint32 ;;
  Reader.ret
    (mkPacketRecord sensorId eventId eventSecond packetSecond
       packetMicrosecond linkType len
       (skipn PACKET_RECORD_HDR_LEN data)).

Definition DecodePacketRecord (data : list byte) : result PacketRecord :=
  match decode_packet data data with
  | Some (packet, _) => Ok packet
  | None => Err DecodingError
  end.

(** ** Extra-data decoder *)

Definition decode_extra_data (data : list byte) : Reader.t ExtraDataRecord :=
  eventType <- read_uint32 ;;
  eventLength <- read_uint32 ;;
  sensorId <- read_uint32 ;;
  eventId <- read_uint32 ;;
  eventSecond <- read_uint32 ;;
  type <- read_uint32 ;;
  dataType <- read_uint32 ;;
  dataLength <- read_uint32 ;;
  Reader.ret
    (mkExtraDataRecord eventType eventLength sensorId eventId eventSecond
       type dataType dataLength
       (skipn EXTRA_DATA_RECORD_HDR_LEN data)).

Definition DecodeExtraDataRecord (data : list byte) : result ExtraDataRecord :=
  match decode_extra_data data data with
  | Some (extra, _) => Ok extra
  | None => Err DecodingError
  end.

(** ** The stream

    The [io.ReadWriteSeeker] handed to the framer is a regular file: a
    byte sequence and the offset of the next read.  The offset may lie
    beyond the end of the contents (a seek may put it there); nothing is
    then left to read. *)

Record File := mkFile {
  contents : list byte;
  offset : nat
}.

Definition unread (file : File) : list byte :=
  skipn (offset file) (contents file).

Definition advance (file : File) (n : nat) : File :=
  mkFile (contents file) (offset file + n).

(** [file.Seek(off, whence)]: [whence] 0 is relative to the start of the
    file, 1 to the current offset, 2 to the end.  The framer drops the
    error of both of its calls, so only the new offset and the file are
    returned; an invalid request moves nothing. *)
Definition Seek (file : File) (off : Z) (whence : Z) : Z * File :=
  let base :=
    if whence =? 0 then Some 0
    else if whence =? 1 then Some (Z.of_nat (offset file))
    else if whence =? 2 then Some (Z.of_nat (length (contents file)))
    else None in
  match base with
  | Some b =>
      if b + off <? 0 then (0, file)
      else (b + off, mkFile (contents file) (Z.to_nat (b + off)))
  | None => (0, file)
  end.

(** The most that one read of an [os.File] asks of the system: [maxRW]
    of package [poll], 1 GiB.  A longer buffer is cut to this length
    before the read. *)
Definition maxRW : Z := 2 ^ 30.

Definition capped (n : nat) : nat :=
  if Z.of_nat n <=? maxRW then n else Z.to_nat maxRW.

(** [file.Read(p)] with [len(p) = n]: the bytes copied into [p] and the
    error.  A read into an empty slice returns [0, nil]; a read at the
    end of the file returns [0, io.EOF]; otherwise the read returns what
    is there, up to [n] bytes and up to [maxRW] bytes, and no error. *)
Definition Read (file : File) (n : nat) : (list byte * option error) * File :=
  if (n =? 0)%nat then (([], None), file)
  else
    match unread file with
    | [] => (([], Some EOF), file)
    | avail =>
        let got := firstn (capped n) avail in
        ((got, None), advance file (length got))
    end.

(** The loop [for n < min && err == nil] of [io.ReadAtLeast]: [got] is
    what the buffer holds so far, [want] what is still missing from it.
    A turn without error on a file reads at least one byte, so [want]
    turns are enough and the bound [fuel] is never what ends the loop
    (lemma [ReadFull_spec]). *)
Fixpoint read_loop (fuel : nat) (file : File) (got : list byte) (want : nat)
  : (list byte * option error) * File :=
  match fuel with
  | O => ((got, None), file)
  | S fuel =>
      if (want =? 0)%nat then ((got, None), file)
      else
        let '((bs, err), file) := Read file want in
        match err with
        | Some e => ((got ++ bs, Some e), file)
        | None => read_loop fuel file (got ++ bs) (want - length bs)
        end
  end.

(** [io.ReadFull(file, buf)] with [len(buf) = n], as [binary.Read] calls
    it: the loop, then no error if all [n] bytes were read, and
    [io.ErrUnexpectedEOF] in place of [io.EOF] if some but not all of
    them were. *)
Definition ReadFull (file : File) (n : nat)
  : (list byte * option error) * File :=
  let '((got, err), file) := read_loop (S n) file [] n in
  let err :=
    if (n <=? length got)%nat then None
    else
      match err with
      | Some EOF => if (0 <? length got)%nat then Some ErrUnexpectedEOF
                    else Some EOF
      | _ => err
      end in
  ((got, err), file).

(** [binary.Read] into a [RawHeader]: two big-endian [uint32]. *)
Definition decode_RawHeader (b : list byte) : RawHeader :=
  mkRawHeader (Uint32 b) (Uint32 (skipn 4 b)).

(** The header that starts at the offset of [file], and the bytes
    behind it. *)
Definition header_at (file : File) : RawHeader :=
  decode_RawHeader (unread file).

Definition body_at (file : File) : list byte :=
  skipn 8 (unread file).

(** [copy] of the bytes read over the front of the buffer [p]. *)
Definition fill (p got : list byte) : list byte :=
  got ++ skipn (length got) p.

(** ** Record framer *)

Definition ReadRawRecord (file : File) : result RawRecord * File :=
  (* Get the current offset so we can seek back to it. *)
  let '(offset, file) := Seek file 0 1 in
  (* Now read in the header. *)
  let '((hdr, err), file) := ReadFull file 8 in
  match err with
  | Some e =>
      let '(_, file) := Seek file offset 0 in
      (Err e, file)
  | None =>
      let header := decode_RawHeader hdr in
      (* Create a buffer to hold the raw record data and read the
         record data into it. *)
      let data := repeat x00 (Z.to_nat (hdr_Len header)) in
      let '((got, err), file) := Read file (length data) in
      let data := fill data got in
      let n := Z.of_nat (length got) in
      match err with
      | Some e =>
          let '(_, file) := Seek file offset 0 in
          (Err e, file)
      | None =>
          if negb (n mod 2 ^ 32 =? hdr_Len header) then
            let '(_, file) := Seek file offset 0 in
            (Err ErrUnexpectedEOF, file)
          else (Ok (mkRawRecord (hdr_Type header) data), file)
      end
  end.

(** ** Dispatcher *)

(** The [switch record.Type] of [ReadRecord]: the decoded value (the
    interface [decoded], [None] when no case matched and it stayed nil)
    or the decoder's error. *)
Definition dispatch (record : RawRecord) : result (option Decoded) :=
  let type := raw_Type record in
  if (type =? UNIFIED2_IDS_EVENT)
     || (type =? UNIFIED2_IDS_EVENT_IP6)
     || (type =? UNIFIED2_IDS_EVENT_V2)
     || (type =? UNIFIED2_IDS_EVENT_IP6_V2)
  then
    match DecodeEventRecord type (raw_Data record) with
    | Ok event => Ok (Some (DecodedEvent event))
    | Err e => Err e
    end
  else if type =? UNIFIED2_PACKET then
    match DecodePacketRecord (raw_Data record) with
    | Ok packet => Ok (Some (DecodedPacket packet))
    | Err e => Err e
    end
  else if type =? UNIFIED2_EXTRA_DATA then
    match DecodeExtraDataRecord (raw_Data record) with
    | Ok extra => Ok (Some (DecodedExtraData extra))
    | Err e => Err e
    end
  else Ok None.

(** [Ok None] is the [return nil, nil] of an unknown record type. *)
Definition ReadRecord (file : File) : result (option RecordContainer) * File :=
  let '(r, file) := ReadRawRecord file in
  match r with
  | Err e => (Err e, file)
  | Ok record =>
      match dispatch record with
      | Err e => (Err e, file)
      | Ok (Some decoded) =>
          (Ok (Some (mkRecordContainer (raw_Type record) decoded)), file)
      | Ok None => (Ok None, file)
      end
  end.

(** ** Record boundaries

    Offset 0 is a record boundary, and so is the offset just behind a
    record that starts at a boundary: 8 header bytes and as many body
    bytes as the header declares. *)
Inductive record_boundary (c : list byte) : nat -> Prop :=
| boundary_start : record_boundary c 0
| boundary_next (p : nat) :
    record_boundary c p ->
    (8 <= length (skipn p c))%nat ->
    record_boundary c
      (p + 8 + Z.to_nat (hdr_Len (decode_RawHeader (skipn p c)))).

(** ** Sample inputs *)

Definition truncated_body : File :=
  mkFile [x00; x00; x00; x07; x00; x00; x00; x04] 0.

Definition empty_event : File :=
  mkFile [x00; x00; x00; x07; x00; x00; x00; x00] 0.

Definition unknown_record : File :=
  mkFile [x00; x00; x00; x09; x00; x00; x00; x02; xaa; xbb; xcc] 0.



(** A type 7 record whose 52-byte body is the event of [sample_event]. *)
Definition sample_event_body : list byte :=
  [x00; x00; x00; x01;   x00; x00; x00; x02;   x00; x0f; x42; x40;
   x00; x00; x01; xf4;   x00; x00; x07; xd1;   x00; x00; x00; x01;
   x00; x00; x00; x05;   x00; x00; x00; x04;   x00; x00; x00; x03;
   x0a; x00; x00; x01;   x0a; x00; x00; x02;
   x00; x50;   x01; xbb;   x06;   x00;   x00;   x00].

Definition sample_event : EventRecord :=
  {| SensorId := 1; EventId := 2; EventSecond := 1000000;
     EventMicrosecond := 500; SignatureId := 2001; GeneratorId := 1;
     SignatureRevision := 5; ClassificationId := 4; Priority := 3;
     IpSource := [x0a; x00; x00; x01];
     IpDestination := [x0a; x00; x00; x02];
     SportItype := 80; DportIcode := 443; Protocol := 6;
     ImpactFlag := 0; Impact := 0; Blocked := 0;
     MplsLabel := 0; VlanId := 0 |}.

(** A packet body: the 28-byte header, whose own length field says 255,
    and a 3-byte tail. *)
Definition sample_packet_body : list byte :=
  [x00; x00; x00; x01;   x00; x00; x00; x02;   x00; x0f; x42; x40;
   x00; x0f; x42; x41;   x00; x00; x00; x07;   x00; x00; x00; x01;
   x00; x00; x00; xff;   xaa; xbb; xcc].

(** An extra-data body: the 32-byte header, whose own data length
    field says 0, and a 2-byte tail. *)
Definition sample_extra_body : list byte :=
  [x00; x00; x00; x04;   x00; x00; x00; x20;   x00; x00; x00; x01;
   x00; x00; x00; x02;   x00; x0f; x42; x40;   x00; x00; x00; x01;
   x00; x00; x00; x01;   x00; x00; x00; x00;   xde; xad].

(** ** Layout of an event body, by type tag *)

Definition is_v4 (tag : Z) : bool :=
  (tag =? UNIFIED2_IDS_EVENT) || (tag =? UNIFIED2_IDS_EVENT_V2).

Definition is_v6 (tag : Z) : bool :=
  (tag =? UNIFIED2_IDS_EVENT_IP6) || (tag =? UNIFIED2_IDS_EVENT_IP6_V2).

Definition is_v2 (tag : Z) : bool :=
  (tag =? UNIFIED2_IDS_EVENT_V2) || (tag =? UNIFIED2_IDS_EVENT_IP6_V2).

Definition addr_len (tag : Z) : nat :=
  if is_v4 tag then 4 else if is_v6 tag then 16 else 0.

Definition trailer_len (tag : Z) : nat :=
  if is_v2 tag then 6 else 0.

(** Preamble, address pair, the six fields up to [Blocked], trailer. *)
Definition blocked_end (tag : Z) : nat := 36 + 2 * addr_len tag + 8.

Definition event_body_len (tag : Z) : nat := blocked_end tag + trailer_len tag.

(** The event whose fields are the big-endian bytes of [data] at the
    offsets of this layout. *)
Definition event_at (tag : Z) (data : list byte) : EventRecord :=
  let a := addr_len tag in
  {| SensorId := Uint32 data;
     EventId := Uint32 (skipn 4 data);
     EventSecond := Uint32 (skipn 8 data);
     EventMicrosecond := Uint32 (skipn 12 data);
     SignatureId := Uint32 (skipn 16 data);
     GeneratorId := Uint32 (skipn 20 data);
     SignatureRevision := Uint32 (skipn 24 data);
     ClassificationId := Uint32 (skipn 28 data);
     Priority := Uint32 (skipn 32 data);
     IpSource := firstn a (skipn 36 data);
     IpDestination := firstn a (skipn (36 + a) data);
     SportItype := Uint16 (skipn (36 + 2 * a) data);
     DportIcode := Uint16 (skipn (38 + 2 * a) data);
     Protocol := Uint8 (skipn (40 + 2 * a) data);
     ImpactFlag := Uint8 (skipn (41 + 2 * a) data);
     Impact := Uint8 (skipn (42 + 2 * a) data);
     Blocked := Uint8 (skipn (43 + 2 * a) data);
     MplsLabel := if is_v2 tag then Uint32 (skipn (44 + 2 * a) data) else 0;
     VlanId := if is_v2 tag then Uint16 (skipn (48 + 2 * a) data) else 0 |}.

(** The nine preamble fields of [event] are the big-endian words of
    [data] in declared order. *)
Definition preamble_of (event : EventRecord) (data : list byte) : Prop :=
  SensorId event = Uint32 data
  /\ EventId event = Uint32 (skipn 4 data)
  /\ EventSecond event = Uint32 (skipn 8 data)
  /\ EventMicrosecond event = Uint32 (skipn 12 data)
  /\ SignatureId event = Uint32 (skipn 16 data)
  /\ GeneratorId event = Uint32 (skipn 20 data)
  /\ SignatureRevision event = Uint32 (skipn 24 data)
  /\ ClassificationId event = Uint32 (skipn 28 data)
  /\ Priority event = Uint32 (skipn 32 data).

(** The two addresses of [event] are the [n] bytes of [data] behind the
    preamble and the [n] bytes behind those. *)
Definition addresses_of (n : nat) (event : EventRecord) (data : list byte)
  : Prop :=
  length (IpSource event) = n
  /\ length (IpDestination event) = n
  /\ IpSource event = firstn n (skipn 36 data)
  /\ IpDestination event = firstn n (skipn (36 + n) data).

(** The six fields from [SportItype] to [Blocked] of [event] are read
    from [data] at offset [k]. *)
Definition ports_of (k : nat) (event : EventRecord) (data : list byte)
  : Prop :=
  SportItype event = Uint16 (skipn k data)
  /\ DportIcode event = Uint16 (skipn (k + 2) data)
  /\ Protocol event = Uint8 (skipn (k + 4) data)
  /\ ImpactFlag event = Uint8 (skipn (k + 5) data)
  /\ Impact event = Uint8 (skipn (k + 6) data)
  /\ Blocked event = Uint8 (skipn (k + 7) data).

(** ** All-or-nothing reads

    A call completes fully when it returns a record and leaves the
    stream behind that record; it leaves the stream as found when it ends
    at the offset it started from. *)
Definition raw_all_or_nothing (file : File) : Prop :=
  let '(r, file') := ReadRawRecord file in
  (exists record,
      r = Ok record
      /\ offset file' = (offset file + 8 + length (raw_Data record))%nat)
  \/ offset file' = offset file.

Definition record_all_or_nothing (file : File) : Prop :=
  let '(r, file') := ReadRecord file in
  (exists container,
      r = Ok (Some container)
      /\ offset file'
         = (offset file + 8 + Z.to_nat (hdr_Len (header_at file)))%nat)
  \/ offset file' = offset file.

(** ** The example of the package comment

    The loop of [main] in the package comment: read records until an
    error; [break] and close the file on [io.EOF], [log.Fatal] on any
    other error, and log one line for each record by the dynamic type
    of [recordHolder.Record].  [ReadRecord] returns a nil [recordHolder]
    with a nil error for an unknown record type, and the type switch
    dereferences it. *)

Inductive LogLine :=
| LogEvent (eventId : Z)
| LogExtraData (eventId : Z)
| LogPacket (eventId : Z).

Inductive Exit :=
| Closed
| Fatal (e : error)
| Panic
| OutOfFuel.

Definition log_record (record : Decoded) : LogLine :=
  match record with
  | DecodedEvent record => LogEvent (EventId record)
  | DecodedExtraData record => LogExtraData (ext_EventId record)
  | DecodedPacket record => LogPacket (pkt_EventId record)
  end.

Fixpoint main (fuel : nat) (file : File) : (list LogLine * Exit) * File :=
  match fuel with
  | O => (([], OutOfFuel), file)
  | S fuel =>
      let '(r, file) := ReadRecord file in
      match r with
      | Err EOF => (([], Closed), file)
      | Err e => (([], Fatal e), file)
      | Ok None => (([], Panic), file)
      | Ok (Some recordHolder) =>
          let line := log_record (rc_Record recordHolder) in
          let '((lines, exit), file) := main fuel file in
          ((line :: lines, exit), file)
      end
  end.

(** ** Sample files: one framed record each *)

Definition sample_event_file : File :=
  mkFile ([x00; x00; x00; x07; x00; x00; x00; x34] ++ sample_event_body) 0.

Definition sample_packet_file : File :=
  mkFile ([x00; x00; x00; x02; x00; x00; x00; x1f] ++ sample_packet_body) 0.

Definition sample_extra_file : File :=
  mkFile ([x00; x00; x00; x6e; x00; x00; x00; x22] ++ sample_extra_body) 0.

(** ** Ranges of the Go integer types *)

Definition is_uint32 (x : Z) : Prop := 0 <= x < 2 ^ 32.
Definition is_uint16 (x : Z) : Prop := 0 <= x < 2 ^ 16.
Definition is_uint8 (x : Z) : Prop := 0 <= x < 2 ^ 8.

Definition EventRecord_in_range (event : EventRecord) : Prop :=
  is_uint32 (SensorId event) /\ is_uint32 (EventId event)
  /\ is_uint32 (EventSecond event) /\ is_uint32 (EventMicrosecond event)
  /\ is_uint32 (SignatureId event) /\ is_uint32 (GeneratorId event)
  /\ is_uint32 (SignatureRevision event)
  /\ is_uint32 (ClassificationId event) /\ is_uint32 (Priority event)
  /\ is_uint16 (SportItype event) /\ is_uint16 (DportIcode event)
  /\ is_uint8 (Protocol event) /\ is_uint8 (ImpactFlag event)
  /\ is_uint8 (Impact event) /\ is_uint8 (Blocked event)
  /\ is_uint32 (MplsLabel event) /\ is_uint16 (VlanId event).

(** * Properties *)

(** ** Big-endian integers *)

Lemma byte_val_range (b : byte) : 0 <= byte_val b < 256.
Proof.
  unfold byte_val. pose proof (Byte.to_N_bounded b). lia.
Qed.

Lemma lor_below_pow2 (a b n : Z) :
  0 <= a < 2 ^ n -> 0 <= b < 2 ^ n -> 0 <= Z.lor a b < 2 ^ n.
Proof.
  intros Ha Hb.
  assert (Hnn : 0 <= Z.lor a b) by (apply Z.lor_nonneg; lia).
  split; [exact Hnn|].
  destruct (Z.eq_dec (Z.lor a b) 0) as [E|E]; [rewrite E; lia|].
  apply Z.log2_lt_pow2; [lia|].
  rewrite Z.log2_lor by lia.
  destruct (Z.eq_dec a 0) as [Ea|Ea]; destruct (Z.eq_dec b 0) as [Eb|Eb]; subst;
    try (exfalso; apply E; reflexivity).
  - rewrite Z.max_r by (apply Z.log2_nonneg). apply Z.log2_lt_pow2; lia.
  - rewrite Z.max_l by (apply Z.log2_nonneg). apply Z.log2_lt_pow2; lia.
  - apply Z.max_lub_lt; apply Z.log2_lt_pow2; lia.
Qed.

Lemma Uint32_range (b : list byte) : 0 <= Uint32 b < 2 ^ 32.
Proof.
  destruct b as [|b0 [|b1 [|b2 [|b3 b]]]]; cbn [Uint32]; try lia.
  pose proof (byte_val_range b0). pose proof (byte_val_range b1).
  pose proof (byte_val_range b2). pose proof (byte_val_range b3).
  rewrite !Z.shiftl_mul_pow2 by lia.
  repeat apply lor_below_pow2; lia.
Qed.

Lemma Uint16_range (b : list byte) : 0 <= Uint16 b < 2 ^ 16.
Proof.
  destruct b as [|b0 [|b1 b]]; cbn [Uint16]; try lia.
  pose proof (byte_val_range b0). pose proof (byte_val_range b1).
  rewrite Z.shiftl_mul_pow2 by lia.
  apply lor_below_pow2; lia.
Qed.

Lemma Uint8_range (b : list byte) : 0 <= Uint8 b < 2 ^ 8.
Proof.
  destruct b as [|b0 b]; cbn [Uint8]; [lia|].
  pose proof (byte_val_range b0). lia.
Qed.

Lemma Uint32_firstn (b : list byte) : Uint32 (firstn 4 b) = Uint32 b.
Proof. destruct b as [|b0 [|b1 [|b2 [|b3 b]]]]; reflexivity. Qed.

Lemma Uint16_firstn (b : list byte) : Uint16 (firstn 2 b) = Uint16 b.
Proof. destruct b as [|b0 [|b1 b]]; reflexivity. Qed.

Lemma Uint8_firstn (b : list byte) : Uint8 (firstn 1 b) = Uint8 b.
Proof. destruct b as [|b0 b]; reflexivity. Qed.

(** ** Reads at a known offset of the body *)

Section ReaderAt.

Variable data : list byte.

Lemma bind_ok {A B} (m : Reader.t A) (k : A -> Reader.t B) buf a buf' :
  m buf = Some (a, buf') -> Reader.bind m k buf = k a buf'.
Proof. unfold Reader.bind. intros ->. reflexivity. Qed.

Lemma bind_fail {A B} (m : Reader.t A) (k : A -> Reader.t B) buf :
  m buf = None -> Reader.bind m k buf = None.
Proof. unfold Reader.bind. intros ->. reflexivity. Qed.

Lemma bind_bind {A B C} (m : Reader.t A) (f : A -> Reader.t B)
      (k : B -> Reader.t C) buf :
  Reader.bind (Reader.bind m f) k buf
  = Reader.bind m (fun a => Reader.bind (f a) k) buf.
Proof. unfold Reader.bind. destruct (m buf) as [[a buf']|]; reflexivity. Qed.

Lemma bind_ret {A B} (a : A) (k : A -> Reader.t B) buf :
  Reader.bind (Reader.ret a) k buf = k a buf.
Proof. reflexivity. Qed.

Lemma bytes_at (n k : nat) :
  (n + k <= length data)%nat ->
  Reader.bytes n (skipn k data)
  = Some (firstn n (skipn k data), skipn (n + k) data).
Proof.
  intros H. unfold Reader.bytes.
  rewrite length_skipn, skipn_skipn.
  destruct (Nat.ltb_spec (length data - k) n); [lia | reflexivity].
Qed.

Lemma bytes_short (n k : nat) :
  (length data < n + k)%nat -> (0 < n)%nat ->
  Reader.bytes n (skipn k data) = None.
Proof.
  intros H Hn. unfold Reader.bytes. rewrite length_skipn.
  destruct (Nat.ltb_spec (length data - k) n); [reflexivity | lia].
Qed.

Lemma read_uint32_at (k : nat) :
  (4 + k <= length data)%nat ->
  read_uint32 (skipn k data)
  = Some (Uint32 (skipn k data), skipn (4 + k) data).
Proof.
  intros H. unfold read_uint32.
  rewrite (bind_ok _ _ _ _ _ (bytes_at 4 k H)).
  unfold Reader.ret. rewrite Uint32_firstn. reflexivity.
Qed.

Lemma read_uint16_at (k : nat) :
  (2 + k <= length data)%nat ->
  read_uint16 (skipn k data)
  = Some (Uint16 (skipn k data), skipn (2 + k) data).
Proof.
  intros H. unfold read_uint16.
  rewrite (bind_ok _ _ _ _ _ (bytes_at 2 k H)).
  unfold Reader.ret. rewrite Uint16_firstn. reflexivity.
Qed.

Lemma read_uint8_at (k : nat) :
  (1 + k <= length data)%nat ->
  read_uint8 (skipn k data)
  = Some (Uint8 (skipn k data), skipn (1 + k) data).
Proof.
  intros H. unfold read_uint8.
  rewrite (bind_ok _ _ _ _ _ (bytes_at 1 k H)).
  unfold Reader.ret. rewrite Uint8_firstn. reflexivity.
Qed.

Lemma read_slice_at (n k : nat) :
  (n + k <= length data)%nat ->
  read_slice n (skipn k data)
  = Some (firstn n (skipn k data), skipn (n + k) data).
Proof. apply bytes_at. Qed.

Lemma read_uint32_short (k : nat) :
  (length data < 4 + k)%nat -> read_uint32 (skipn k data) = None.
Proof.
  intros H. unfold read_uint32. apply bind_fail, bytes_short; lia.
Qed.

Lemma read_uint16_short (k : nat) :
  (length data < 2 + k)%nat -> read_uint16 (skipn k data) = None.
Proof.
  intros H. unfold read_uint16. apply bind_fail, bytes_short; lia.
Qed.

Lemma read_uint8_short (k : nat) :
  (length data < 1 + k)%nat -> read_uint8 (skipn k data) = None.
Proof.
  intros H. unfold read_uint8. apply bind_fail, bytes_short; lia.
Qed.

Lemma read_slice_short (n k : nat) :
  (length data < n + k)%nat -> (0 < n)%nat ->
  read_slice n (skipn k data) = None.
Proof. apply bytes_short. Qed.

End ReaderAt.

(** One successful read at the head of a [Reader.bind] chain. *)
Ltac read_ok :=
  lazymatch goal with
  | |- context [Reader.bind read_uint32 ?k (skipn ?n ?d)] =>
      rewrite (bind_ok read_uint32 k (skipn n d) _ _
                 (read_uint32_at d n ltac:(simpl; lia)))
  | |- context [Reader.bind read_uint16 ?k (skipn ?n ?d)] =>
      rewrite (bind_ok read_uint16 k (skipn n d) _ _
                 (read_uint16_at d n ltac:(simpl; lia)))
  | |- context [Reader.bind read_uint8 ?k (skipn ?n ?d)] =>
      rewrite (bind_ok read_uint8 k (skipn n d) _ _
                 (read_uint8_at d n ltac:(simpl; lia)))
  | |- context [Reader.bind (read_slice ?m) ?k (skipn ?n ?d)] =>
      rewrite (bind_ok (read_slice m) k (skipn n d) _ _
                 (read_slice_at d m n ltac:(simpl; lia)))
  end;
  cbn [Nat.add];
  repeat (first [rewrite bind_bind | rewrite bind_ret | progress (cbv beta iota)]).

(** The same read, or the goal closed because the body ends before it. *)
Ltac read_or_fail :=
  lazymatch goal with
  | |- context [Reader.bind read_uint32 ?k (skipn ?n ?d)] =>
      destruct (le_lt_dec (4 + n) (length d));
      [ read_ok | rewrite (bind_fail read_uint32 k (skipn n d)
                             (read_uint32_short d n ltac:(assumption))) ]
  | |- context [Reader.bind read_uint16 ?k (skipn ?n ?d)] =>
      destruct (le_lt_dec (2 + n) (length d));
      [ read_ok | rewrite (bind_fail read_uint16 k (skipn n d)
                             (read_uint16_short d n ltac:(assumption))) ]
  | |- context [Reader.bind read_uint8 ?k (skipn ?n ?d)] =>
      destruct (le_lt_dec (1 + n) (length d));
      [ read_ok | rewrite (bind_fail read_uint8 k (skipn n d)
                             (read_uint8_short d n ltac:(assumption))) ]
  | |- context [Reader.bind (read_slice ?m) ?k (skipn ?n ?d)] =>
      destruct (le_lt_dec (m + n) (length d));
      [ read_ok | rewrite (bind_fail (read_slice m) k (skipn n d)
                             (read_slice_short d m n ltac:(assumption)
                                ltac:(lia))) ]
  end.

(** ** The five classes of type tag, as [DecodeEventRecord] sees them *)

Lemma tag_cases (tag : Z) :
  tag = UNIFIED2_IDS_EVENT \/ tag = UNIFIED2_IDS_EVENT_IP6
  \/ tag = UNIFIED2_IDS_EVENT_V2 \/ tag = UNIFIED2_IDS_EVENT_IP6_V2
  \/ IsEventType tag = false.
Proof.
  unfold IsEventType, UNIFIED2_IDS_EVENT, UNIFIED2_IDS_EVENT_IP6,
    UNIFIED2_IDS_EVENT_V2, UNIFIED2_IDS_EVENT_IP6_V2.
  destruct (Z.eqb_spec tag 7); [auto|].
  destruct (Z.eqb_spec tag 72); [auto|].
  destruct (Z.eqb_spec tag 104); [auto|].
  destruct (Z.eqb_spec tag 105); auto 6.
Qed.

Lemma not_event_tag (tag : Z) :
  IsEventType tag = false ->
  is_v4 tag = false /\ is_v6 tag = false /\ is_v2 tag = false.
Proof.
  unfold IsEventType, is_v4, is_v6, is_v2. intros H.
  repeat (apply orb_false_iff in H; destruct H as [H ?]).
  repeat split; apply orb_false_iff; split; assumption.
Qed.

Lemma decode_event_ok (tag : Z) (data : list byte) :
  (event_body_len tag <= length data)%nat ->
  decode_event tag data
  = Some (event_at tag data, skipn (event_body_len tag) data).
Proof.
  intros H. unfold decode_event.
  rewrite <- (skipn_0 data) at 1.
  destruct (tag_cases tag) as [E | [E | [E | [E | E]]]].
  1-4: subst tag;
       unfold event_body_len, blocked_end, trailer_len, addr_len in H;
       simpl in H; do 9 read_ok;
       unfold read_addresses, read_trailer; cbn [Z.eqb orb
         UNIFIED2_IDS_EVENT UNIFIED2_IDS_EVENT_IP6 UNIFIED2_IDS_EVENT_V2
         UNIFIED2_IDS_EVENT_IP6_V2 Pos.eqb];
       rewrite ?bind_bind, ?bind_ret;
       repeat read_ok; reflexivity.
  destruct (not_event_tag tag E) as (E4 & E6 & E2).
  unfold event_body_len, blocked_end, trailer_len, addr_len in H.
  rewrite E4, E6, E2 in H. simpl in H.
  do 9 read_ok.
  unfold read_addresses, read_trailer.
  fold (is_v4 tag) (is_v6 tag) (is_v2 tag). rewrite E4, E6, E2.
  rewrite bind_ret. cbv beta iota.
  repeat read_ok.
  unfold event_at, event_body_len, blocked_end, trailer_len, addr_len.
  rewrite E4, E6, E2. reflexivity.
Qed.

Lemma decode_event_short (tag : Z) (data : list byte) :
  (length data < event_body_len tag)%nat ->
  decode_event tag data = None.
Proof.
  intros H. unfold decode_event.
  rewrite <- (skipn_0 data) at 1.
  destruct (tag_cases tag) as [E | [E | [E | [E | E]]]].
  1-4: subst tag;
       unfold event_body_len, blocked_end, trailer_len, addr_len in H;
       simpl in H;
       do 9 (read_or_fail; [|reflexivity]);
       unfold read_addresses, read_trailer; cbn [Z.eqb orb
         UNIFIED2_IDS_EVENT UNIFIED2_IDS_EVENT_IP6 UNIFIED2_IDS_EVENT_V2
         UNIFIED2_IDS_EVENT_IP6_V2 Pos.eqb];
       rewrite ?bind_bind, ?bind_ret;
       repeat (read_or_fail; [|reflexivity]); lia.
  destruct (not_event_tag tag E) as (E4 & E6 & E2).
  unfold event_body_len, blocked_end, trailer_len, addr_len in H.
  rewrite E4, E6, E2 in H. simpl in H.
  do 9 (read_or_fail; [|reflexivity]).
  unfold read_addresses, read_trailer.
  fold (is_v4 tag) (is_v6 tag) (is_v2 tag). rewrite E4, E6, E2.
  rewrite bind_ret. cbv beta iota.
  repeat (read_or_fail; [|reflexivity]). lia.
Qed.

Lemma decode_packet_ok (data : list byte) :
  (PACKET_RECORD_HDR_LEN <= length data)%nat ->
  decode_packet data data
  = Some ({| pkt_SensorId := Uint32 data;
             pkt_EventId := Uint32 (skipn 4 data);
             pkt_EventSecond := Uint32 (skipn 8 data);
             pkt_PacketSecond := Uint32 (skipn 12 data);
             pkt_PacketMicrosecond := Uint32 (skipn 16 data);
             pkt_LinkType := Uint32 (skipn 20 data);
             pkt_Length := Uint32 (skipn 24 data);
             pkt_Data := skipn PACKET_RECORD_HDR_LEN data |},
          skipn PACKET_RECORD_HDR_LEN data).
Proof.
  unfold PACKET_RECORD_HDR_LEN. intros H.
  change (decode_packet data data) with (decode_packet data (skipn 0 data)).
  unfold decode_packet.
  do 7 read_ok. reflexivity.
Qed.

Lemma decode_packet_short (data : list byte) :
  (length data < PACKET_RECORD_HDR_LEN)%nat ->
  decode_packet data data = None.
Proof.
  unfold PACKET_RECORD_HDR_LEN. intros H.
  change (decode_packet data data) with (decode_packet data (skipn 0 data)).
  unfold decode_packet.
  do 7 (read_or_fail; [|reflexivity]). lia.
Qed.

Lemma decode_extra_data_ok (data : list byte) :
  (EXTRA_DATA_RECORD_HDR_LEN <= length data)%nat ->
  decode_extra_data data data
  = Some ({| ext_EventType := Uint32 data;
             ext_EventLength := Uint32 (skipn 4 data);
             ext_SensorId := Uint32 (skipn 8 data);
             ext_EventId := Uint32 (skipn 12 data);
             ext_EventSecond := Uint32 (skipn 16 data);
             ext_Type := Uint32 (skipn 20 data);
             ext_DataType := Uint32 (skipn 24 data);
             ext_DataLength := Uint32 (skipn 28 data);
             ext_Data := skipn EXTRA_DATA_RECORD_HDR_LEN data |},
          skipn EXTRA_DATA_RECORD_HDR_LEN data).
Proof.
  unfold EXTRA_DATA_RECORD_HDR_LEN. intros H.
  change (decode_extra_data data data) with (decode_extra_data data (skipn 0 data)).
  unfold decode_extra_data.
  do 8 read_ok. reflexivity.
Qed.

Lemma decode_extra_data_short (data : list byte) :
  (length data < EXTRA_DATA_RECORD_HDR_LEN)%nat ->
  decode_extra_data data data = None.
Proof.
  unfold EXTRA_DATA_RECORD_HDR_LEN. intros H.
  change (decode_extra_data data data) with (decode_extra_data data (skipn 0 data)).
  unfold decode_extra_data.
  do 8 (read_or_fail; [|reflexivity]). lia.
Qed.

(** ** The stream operations *)

Lemma Seek_current (file : File) :
  Seek file 0 1 = (Z.of_nat (offset file), file).
Proof.
  destruct file as [c o]. unfold Seek.
  cbn [Z.eqb Pos.eqb offset contents].
  rewrite Z.add_0_r.
  destruct (Z.ltb_spec (Z.of_nat o) 0); [lia|].
  rewrite Nat2Z.id. reflexivity.
Qed.

Lemma Seek_back (file : File) (o : nat) :
  Seek file (Z.of_nat o) 0 = (Z.of_nat o, mkFile (contents file) o).
Proof.
  unfold Seek. cbn [Z.eqb Z.add].
  destruct (Z.ltb_spec (Z.of_nat o) 0); [lia|].
  rewrite Nat2Z.id. reflexivity.
Qed.

Lemma unread_advance (file : File) (n : nat) :
  unread (advance file n) = skipn n (unread file).
Proof.
  unfold unread, advance. cbn [contents offset].
  rewrite skipn_skipn. f_equal. lia.
Qed.

Lemma capped_le (n : nat) : (capped n <= n)%nat.
Proof.
  unfold capped. destruct (Z.leb_spec (Z.of_nat n) maxRW); lia.
Qed.

Lemma capped_pos (n : nat) : (0 < n)%nat -> (0 < capped n)%nat.
Proof.
  unfold capped, maxRW. destruct (Z.leb_spec (Z.of_nat n) (2 ^ 30)); lia.
Qed.

Lemma capped_small (n : nat) : Z.of_nat n <= maxRW -> capped n = n.
Proof.
  unfold capped. destruct (Z.leb_spec (Z.of_nat n) maxRW); lia.
Qed.

Lemma capped_large (n : nat) :
  maxRW < Z.of_nat n -> (capped n < n)%nat.
Proof.
  unfold capped, maxRW. destruct (Z.leb_spec (Z.of_nat n) (2 ^ 30)); lia.
Qed.

Lemma advance_0 (file : File) : advance file 0 = file.
Proof.
  destruct file as [c o]. unfold advance. cbn [contents offset].
  rewrite Nat.add_0_r. reflexivity.
Qed.

Lemma advance_advance (file : File) (n m : nat) :
  advance (advance file n) m = advance file (n + m).
Proof.
  unfold advance. cbn [contents offset]. rewrite Nat.add_assoc. reflexivity.
Qed.

Lemma firstn_plus (a b : nat) (l : list byte) :
  firstn (a + b) l = firstn a l ++ firstn b (skipn a l).
Proof.
  revert l. induction a as [|a IH]; intros l; [reflexivity|].
  destruct l as [|x l]; cbn [Nat.add firstn skipn app].
  - rewrite firstn_nil. reflexivity.
  - rewrite IH. reflexivity.
Qed.

(** A read that finds something returns at least one byte and at most
    what was asked for. *)
Lemma Read_some (file : File) (n : nat) :
  (0 < n)%nat -> (0 < length (unread file))%nat ->
  Read file n
  = ((firstn (capped n) (unread file), None),
     advance file (length (firstn (capped n) (unread file)))).
Proof.
  intros Hn Hu. unfold Read.
  destruct (Nat.eqb_spec n 0); [lia|].
  destruct (unread file) as [|b l]; [cbn [length] in Hu; lia | reflexivity].
Qed.

Lemma Read_none (file : File) (n : nat) :
  (0 < n)%nat -> unread file = [] -> Read file n = (([], Some EOF), file).
Proof.
  intros Hn Hu. unfold Read.
  destruct (Nat.eqb_spec n 0); [lia|]. rewrite Hu. reflexivity.
Qed.

(** The loop of [io.ReadAtLeast] on a file, whatever the reads are cut
    to: all of [want] if it is there, and otherwise all there is and
    [io.EOF]. *)
Lemma read_loop_spec (fuel : nat) :
  forall (file : File) (got : list byte) (want : nat),
    (want < fuel)%nat ->
    read_loop fuel file got want
    = if (want <=? length (unread file))%nat
      then ((got ++ firstn want (unread file), None), advance file want)
      else ((got ++ unread file, Some EOF),
            advance file (length (unread file))).
Proof.
  induction fuel as [|fuel IH]; intros file got want Hfuel; [lia|].
  cbn [read_loop].
  destruct (Nat.eqb_spec want 0) as [E0 | E0].
  { subst want. cbn [Nat.leb firstn].
    rewrite app_nil_r, advance_0. reflexivity. }
  destruct (unread file) as [|b l] eqn:EU.
  { rewrite Read_none by (try assumption; lia).
    destruct (Nat.leb_spec want (length (@nil byte)));
      [cbn [length] in *; lia|].
    cbn [length]. rewrite advance_0. reflexivity. }
  rewrite <- EU.
  assert (HU : (0 < length (unread file))%nat)
    by (rewrite EU; cbn [length]; lia).
  rewrite Read_some by lia.
  pose proof (capped_le want) as Hle.
  pose proof (capped_pos want ltac:(lia)) as Hpos.
  set (k := capped want) in *.
  destruct (le_lt_dec k (length (unread file))) as [Hk | Hk].
  - assert (HF : length (firstn k (unread file)) = k)
      by (rewrite length_firstn; lia).
    rewrite HF. rewrite IH by lia.
    rewrite unread_advance, length_skipn, !advance_advance.
    destruct (Nat.leb_spec want (length (unread file))) as [Hw | Hw].
    + destruct (Nat.leb_spec (want - k) (length (unread file) - k));
        [|lia].
      rewrite <- app_assoc, <- firstn_plus.
      replace (k + (want - k))%nat with want by lia. reflexivity.
    + destruct (Nat.leb_spec (want - k) (length (unread file) - k));
        [lia|].
      rewrite <- app_assoc, firstn_skipn.
      replace (k + (length (unread file) - k))%nat
        with (length (unread file)) by lia.
      reflexivity.
  - rewrite firstn_all2 by lia. rewrite IH by lia.
    rewrite unread_advance, skipn_all, !advance_advance.
    cbn [length]. rewrite Nat.add_0_r, app_nil_r.
    destruct (Nat.leb_spec (want - length (unread file)) 0); [lia|].
    destruct (Nat.leb_spec want (length (unread file))); [lia|].
    reflexivity.
Qed.

(** [io.ReadFull] on a file: exactly [n] bytes and no error, or fewer
    bytes and an error, which is [io.EOF] only if no byte was read.  The
    bytes that were read are consumed. *)
Lemma ReadFull_spec (file : File) (n : nat) :
  ReadFull file n
  = if (n =? 0)%nat then (([], None), file)
    else if (length (unread file) =? 0)%nat then (([], Some EOF), file)
    else if (length (unread file) <? n)%nat then
      ((unread file, Some ErrUnexpectedEOF),
       advance file (length (unread file)))
    else ((firstn n (unread file), None), advance file n).
Proof.
  unfold ReadFull. rewrite read_loop_spec by lia. cbn [app].
  destruct (Nat.eqb_spec n 0) as [E0 | E0].
  { subst n. cbn [Nat.leb firstn length]. rewrite advance_0. reflexivity. }
  destruct (Nat.leb_spec n (length (unread file))) as [Hn | Hn].
  - rewrite length_firstn.
    destruct (Nat.leb_spec n (Nat.min n (length (unread file)))); [|lia].
    destruct (Nat.eqb_spec (length (unread file)) 0); [lia|].
    destruct (Nat.ltb_spec (length (unread file)) n); [lia|].
    reflexivity.
  - destruct (Nat.leb_spec n (length (unread file))); [lia|].
    destruct (Nat.eqb_spec (length (unread file)) 0) as [EL | EL].
    + rewrite EL. cbn [Nat.ltb Nat.leb]. rewrite advance_0.
      destruct (unread file); [reflexivity | discriminate].
    + destruct (Nat.ltb_spec 0 (length (unread file))); [|lia].
      destruct (Nat.ltb_spec (length (unread file)) n); [|lia].
      reflexivity.
Qed.

Lemma decode_RawHeader_firstn (b : list byte) :
  decode_RawHeader (firstn 8 b) = decode_RawHeader b.
Proof.
  destruct b as [|b0 [|b1 [|b2 [|b3 [|b4 [|b5 [|b6 [|b7 b]]]]]]]];
    reflexivity.
Qed.

Lemma decode_RawHeader_app (l more : list byte) :
  (8 <= length l)%nat -> decode_RawHeader (l ++ more) = decode_RawHeader l.
Proof.
  destruct l as [|b0 [|b1 [|b2 [|b3 [|b4 [|b5 [|b6 [|b7 l]]]]]]]];
    cbn [length]; intros H; try lia; reflexivity.
Qed.

Lemma fill_full (n : nat) (got : list byte) :
  length got = n -> fill (repeat x00 n) got = got.
Proof.
  intros <-. unfold fill.
  rewrite skipn_all2 by (rewrite repeat_length; lia).
  apply app_nil_r.
Qed.

(** ** The framer, case by case *)

Lemma ReadRawRecord_eof (file : File) :
  unread file = [] -> ReadRawRecord file = (Err EOF, file).
Proof.
  intros H. unfold ReadRawRecord. rewrite Seek_current.
  rewrite ReadFull_spec. rewrite H. cbn [Nat.eqb length].
  rewrite Seek_back. destruct file; reflexivity.
Qed.

Lemma ReadRawRecord_short_header (file : File) :
  (0 < length (unread file) < 8)%nat ->
  ReadRawRecord file = (Err ErrUnexpectedEOF, file).
Proof.
  intros H. unfold ReadRawRecord. rewrite Seek_current.
  rewrite ReadFull_spec. cbn [Nat.eqb].
  destruct (Nat.eqb_spec (length (unread file)) 0); [lia|].
  destruct (Nat.ltb_spec (length (unread file)) 8); [|lia].
  rewrite Seek_back. destruct file; reflexivity.
Qed.

Lemma Read_bounds (file file' : File) (n : nat) (got : list byte)
    (err : option error) :
  Read file n = ((got, err), file') ->
  (length got <= n)%nat /\ contents file' = contents file.
Proof.
  unfold Read. destruct (n =? 0)%nat.
  - intros H. injection H as <- _ <-. cbn [length]. split; [lia | reflexivity].
  - destruct (unread file) as [|b l].
    + intros H. injection H as <- _ <-. cbn [length].
      split; [lia | reflexivity].
    + intros H. injection H as <- _ <-. split; [|reflexivity].
      pose proof (firstn_le_length (capped n) (b :: l)).
      pose proof (capped_le n). lia.
Qed.

Lemma hdr_Len_range (file : File) : 0 <= hdr_Len (header_at file) < 2 ^ 32.
Proof. apply (Uint32_range (skipn 4 (unread file))). Qed.

(** With the header there, the call is the read of the body. *)
Lemma ReadRawRecord_body (file : File) :
  (8 <= length (unread file))%nat ->
  ReadRawRecord file
  = let header := header_at file in
    let len := Z.to_nat (hdr_Len header) in
    let '((got, err), file') := Read (advance file 8) len in
    match err with
    | Some e => (Err e, file)
    | None =>
        if negb (Z.of_nat (length got) =? hdr_Len header)
        then (Err ErrUnexpectedEOF, file)
        else (Ok (mkRawRecord (hdr_Type header)
                    (fill (repeat x00 len) got)), file')
    end.
Proof.
  intros H. unfold ReadRawRecord. rewrite Seek_current.
  rewrite ReadFull_spec. cbn [Nat.eqb].
  destruct (Nat.eqb_spec (length (unread file)) 0); [lia|].
  destruct (Nat.ltb_spec (length (unread file)) 8); [lia|].
  rewrite decode_RawHeader_firstn. fold (header_at file).
  rewrite repeat_length. cbv zeta.
  destruct (Read (advance file 8) (Z.to_nat (hdr_Len (header_at file))))
    as [[got err] file'] eqn:ER.
  destruct (Read_bounds _ _ _ _ _ ER) as [Hgot Hc].
  cbn [advance contents] in Hc.
  pose proof (hdr_Len_range file) as HR.
  rewrite Z.mod_small by lia.
  destruct err as [e|].
  - rewrite Seek_back, Hc. destruct file; reflexivity.
  - destruct (negb (Z.of_nat (length got) =? hdr_Len (header_at file))).
    + rewrite Seek_back, Hc. destruct file; reflexivity.
    + reflexivity.
Qed.

Lemma ReadRawRecord_no_body (file : File) :
  (8 <= length (unread file))%nat ->
  0 < hdr_Len (header_at file) ->
  body_at file = [] ->
  ReadRawRecord file = (Err EOF, file).
Proof.
  intros H HL HB. rewrite ReadRawRecord_body by assumption. cbv zeta.
  rewrite Read_none; [reflexivity | lia |].
  rewrite unread_advance. exact HB.
Qed.

(** A body that is not all there, or is more than one read gives. *)
Lemma ReadRawRecord_short_read (file : File) :
  (8 <= length (unread file))%nat ->
  (0 < length (body_at file))%nat ->
  Z.of_nat (length (body_at file)) < hdr_Len (header_at file)
  \/ maxRW < hdr_Len (header_at file) ->
  ReadRawRecord file = (Err ErrUnexpectedEOF, file).
Proof.
  intros H HB HL. rewrite ReadRawRecord_body by assumption. cbv zeta.
  pose proof (hdr_Len_range file) as HR.
  assert (Hpos : (0 < Z.to_nat (hdr_Len (header_at file)))%nat)
    by (unfold maxRW in HL; lia).
  rewrite Read_some
    by (try assumption; rewrite unread_advance; exact HB).
  rewrite unread_advance. fold (body_at file).
  assert (Hne : Z.of_nat
                  (length (firstn (capped (Z.to_nat (hdr_Len (header_at file))))
                             (body_at file)))
                <> hdr_Len (header_at file)).
  { rewrite length_firstn.
    pose proof (capped_le (Z.to_nat (hdr_Len (header_at file)))).
    destruct HL as [HL | HL]; [lia|].
    pose proof (capped_large (Z.to_nat (hdr_Len (header_at file)))).
    lia. }
  destruct (Z.eqb_spec
              (Z.of_nat
                 (length (firstn (capped (Z.to_nat (hdr_Len (header_at file))))
                            (body_at file))))
              (hdr_Len (header_at file))); [contradiction|].
  reflexivity.
Qed.

Lemma ReadRawRecord_short_body (file : File) :
  (8 <= length (unread file))%nat ->
  (0 < length (body_at file))%nat ->
  Z.of_nat (length (body_at file)) < hdr_Len (header_at file) ->
  ReadRawRecord file = (Err ErrUnexpectedEOF, file).
Proof.
  intros H HB HL. apply ReadRawRecord_short_read; auto.
Qed.

Lemma ReadRawRecord_ok (file : File) :
  (8 <= length (unread file))%nat ->
  (Z.to_nat (hdr_Len (header_at file)) <= length (body_at file))%nat ->
  hdr_Len (header_at file) <= maxRW ->
  ReadRawRecord file
  = (Ok (mkRawRecord (hdr_Type (header_at file))
           (firstn (Z.to_nat (hdr_Len (header_at file))) (body_at file))),
     advance file (8 + Z.to_nat (hdr_Len (header_at file)))).
Proof.
  intros H HL HM. rewrite ReadRawRecord_body by assumption. cbv zeta.
  pose proof (hdr_Len_range file) as HR.
  set (len := Z.to_nat (hdr_Len (header_at file))) in *.
  assert (HF : length (firstn len (body_at file)) = len)
    by (rewrite length_firstn; lia).
  destruct (Nat.eq_dec len 0) as [E0|E0].
  - rewrite E0. unfold Read.
    cbn [Nat.eqb firstn length repeat fill app skipn Z.of_nat].
    destruct (Z.eqb_spec 0 (hdr_Len (header_at file))); [|lia].
    cbn [negb]. reflexivity.
  - rewrite Read_some by (try lia; rewrite unread_advance;
                          fold (body_at file); lia).
    rewrite unread_advance. fold (body_at file).
    rewrite capped_small by lia.
    rewrite HF.
    destruct (Z.eqb_spec (Z.of_nat len) (hdr_Len (header_at file))); [|lia].
    cbn [negb]. rewrite fill_full by assumption.
    rewrite advance_advance. reflexivity.
Qed.

(** ** The decoders on bodies of sufficient and of insufficient length *)

Lemma DecodeEventRecord_ok (tag : Z) (data : list byte) :
  (event_body_len tag <= length data)%nat ->
  DecodeEventRecord tag data = Ok (event_at tag data).
Proof.
  intros H. unfold DecodeEventRecord.
  rewrite decode_event_ok by assumption. reflexivity.
Qed.

Lemma firstn_skipn_length (n k : nat) (data : list byte) :
  (k + n <= length data)%nat -> length (firstn n (skipn k data)) = n.
Proof.
  intros H. rewrite length_firstn, length_skipn. lia.
Qed.

Example event_body_len_values :
  event_body_len UNIFIED2_IDS_EVENT = 52%nat
  /\ event_body_len UNIFIED2_IDS_EVENT_IP6 = 76%nat
  /\ event_body_len UNIFIED2_IDS_EVENT_V2 = 58%nat
  /\ event_body_len UNIFIED2_IDS_EVENT_IP6_V2 = 82%nat
  /\ event_body_len UNIFIED2_PACKET = 44%nat.
Proof. repeat split. Qed.

(** C4. For a body long enough for its tag, [DecodeEventRecord] with tag
    7 or 104 gives [IpSource] and [IpDestination] of exactly 4 bytes
    each, with tag 72 or 105 of exactly 16 bytes each; the address bytes
    and the nine preamble fields are the corresponding big-endian bytes
    of the body.  The tag 7 body of sensor 1, event 2, second 1000000,
    ..., priority 3, 10.0.0.1 to 10.0.0.2, ports 80 and 443, protocol 6
    decodes to exactly that event, with no MPLS label and no VLAN id. *)
Theorem DecodeEventRecord_addresses_by_tag (tag : Z) (data : list byte)
    (Hlen : (event_body_len tag <= length data)%nat) :
  (tag = UNIFIED2_IDS_EVENT \/ tag = UNIFIED2_IDS_EVENT_V2 ->
   exists event,
     DecodeEventRecord tag data = Ok event
     /\ addresses_of 4 event data /\ preamble_of event data)
  /\ (tag = UNIFIED2_IDS_EVENT_IP6 \/ tag = UNIFIED2_IDS_EVENT_IP6_V2 ->
      exists event,
        DecodeEventRecord tag data = Ok event
        /\ addresses_of 16 event data /\ preamble_of event data)
  /\ DecodeEventRecord UNIFIED2_IDS_EVENT sample_event_body = Ok sample_event.
Proof.
  pose proof (DecodeEventRecord_ok tag data Hlen) as HD.
  split; [|split].
  - intros [E | E]; subst tag; (eexists; split; [exact HD|]);
      (split; [|repeat split]);
      unfold addresses_of, event_at; cbn -[firstn skipn Uint32 Uint16 Uint8];
      unfold event_body_len, blocked_end, trailer_len, addr_len in Hlen;
      simpl in Hlen;
      repeat split; try reflexivity; apply firstn_skipn_length; simpl; lia.
  - intros [E | E]; subst tag; (eexists; split; [exact HD|]);
      (split; [|repeat split]);
      unfold addresses_of, event_at; cbn -[firstn skipn Uint32 Uint16 Uint8];
      unfold event_body_len, blocked_end, trailer_len, addr_len in Hlen;
      simpl in Hlen;
      repeat split; try reflexivity; apply firstn_skipn_length; simpl; lia.
  - vm_compute. reflexivity.
Qed.

Lemma DecodeEventRecord_addresses_by_tag_witness :
  exists event,
    DecodeEventRecord UNIFIED2_IDS_EVENT_IP6_V2
      (sample_event_body ++ sample_event_body) = Ok event
    /\ addresses_of 16 event (sample_event_body ++ sample_event_body)
    /\ preamble_of event (sample_event_body ++ sample_event_body).
Proof.
  apply (DecodeEventRecord_addresses_by_tag UNIFIED2_IDS_EVENT_IP6_V2
           (sample_event_body ++ sample_event_body)).
  - vm_compute. lia.
  - right. reflexivity.
Defined.

(** C5. On a sufficiently long body the decoder reads the 4-byte MPLS
    label and the 2-byte VLAN id, right behind [Blocked], if and only if
    the tag is 104 or 105.  For every other tag, 7 and 72 among them,
    both fields are zero, no byte is consumed for them, and decoding ends
    right behind [Blocked]. *)
Theorem decode_event_trailer_iff_v2 (tag : Z) (data : list byte)
    (Hlen : (event_body_len tag <= length data)%nat) :
  exists event rest,
    decode_event tag data = Some (event, rest)
    /\ DecodeEventRecord tag data = Ok event
    /\ Blocked event = Uint8 (skipn (blocked_end tag - 1) data)
    /\ if (tag =? UNIFIED2_IDS_EVENT_V2) || (tag =? UNIFIED2_IDS_EVENT_IP6_V2)
       then
         MplsLabel event = Uint32 (skipn (blocked_end tag) data)
         /\ VlanId event = Uint16 (skipn (blocked_end tag + 4) data)
         /\ rest = skipn (blocked_end tag + 6) data
         /\ (length data - length rest = blocked_end tag + 6)%nat
       else
         MplsLabel event = 0
         /\ VlanId event = 0
         /\ rest = skipn (blocked_end tag) data
         /\ (length data - length rest = blocked_end tag)%nat.
Proof.
  exists (event_at tag data), (skipn (event_body_len tag) data).
  split; [apply decode_event_ok; assumption|].
  split; [apply DecodeEventRecord_ok; assumption|].
  split.
  { unfold event_at, blocked_end. cbn [Blocked]. f_equal. f_equal. lia. }
  fold (is_v2 tag).
  unfold event_body_len, trailer_len in *. unfold event_at.
  cbn [MplsLabel VlanId].
  destruct (is_v2 tag).
  - repeat split.
    + f_equal. f_equal. unfold blocked_end. lia.
    + f_equal. f_equal. unfold blocked_end. lia.
    + rewrite length_skipn. lia.
  - rewrite Nat.add_0_r in *. repeat split.
    rewrite length_skipn. lia.
Qed.

Lemma decode_event_trailer_iff_v2_witness :
  exists event rest,
    decode_event UNIFIED2_IDS_EVENT sample_event_body = Some (event, rest)
    /\ DecodeEventRecord UNIFIED2_IDS_EVENT sample_event_body = Ok event
    /\ Blocked event = Uint8 (skipn 51 sample_event_body)
    /\ MplsLabel event = 0
    /\ VlanId event = 0
    /\ rest = skipn 52 sample_event_body
    /\ (length sample_event_body - length rest = 52)%nat.
Proof.
  apply (decode_event_trailer_iff_v2 UNIFIED2_IDS_EVENT sample_event_body).
  vm_compute. lia.
Defined.

(** C6. For a packet body of length at least 28 and an extra-data body
    of length at least 32 the decoded [Data] is exactly the body from
    the fixed header size on, of length [L - 28] and [L - 32]; the
    record's own length field is decoded and otherwise plays no part. *)
Theorem Data_is_rest_of_body (data : list byte) :
  ((PACKET_RECORD_HDR_LEN <= length data)%nat ->
   exists packet,
     DecodePacketRecord data = Ok packet
     /\ pkt_Data packet = skipn 28 data
     /\ length (pkt_Data packet) = (length data - 28)%nat
     /\ pkt_Length packet = Uint32 (skipn 24 data))
  /\ ((EXTRA_DATA_RECORD_HDR_LEN <= length data)%nat ->
      exists extra,
        DecodeExtraDataRecord data = Ok extra
        /\ ext_Data extra = skipn 32 data
        /\ length (ext_Data extra) = (length data - 32)%nat
        /\ ext_DataLength extra = Uint32 (skipn 28 data)).
Proof.
  split; intros H.
  - unfold DecodePacketRecord. rewrite decode_packet_ok by assumption.
    eexists. split; [reflexivity|]. cbn [pkt_Data pkt_Length].
    unfold PACKET_RECORD_HDR_LEN. rewrite length_skipn. auto.
  - unfold DecodeExtraDataRecord. rewrite decode_extra_data_ok by assumption.
    eexists. split; [reflexivity|]. cbn [ext_Data ext_DataLength].
    unfold EXTRA_DATA_RECORD_HDR_LEN. rewrite length_skipn. auto.
Qed.

Lemma Data_is_rest_of_body_witness :
  (exists packet,
      DecodePacketRecord sample_packet_body = Ok packet
      /\ pkt_Data packet = [xaa; xbb; xcc]
      /\ length (pkt_Data packet) = 3%nat
      /\ pkt_Length packet = 255)
  /\ (exists extra,
         DecodeExtraDataRecord sample_extra_body = Ok extra
         /\ ext_Data extra = [xde; xad]
         /\ length (ext_Data extra) = 2%nat
         /\ ext_DataLength extra = 0).
Proof.
  split.
  - apply (proj1 (Data_is_rest_of_body sample_packet_body)).
    vm_compute. lia.
  - apply (proj2 (Data_is_rest_of_body sample_extra_body)).
    vm_compute. lia.
Defined.

(** C7. A body too short for the fields of its tag makes each decoder
    return [DecodingError] and no record: the event decoder for each of
    the four event tags (bodies shorter than 52, 76, 58 and 82 bytes),
    the packet decoder below 28 bytes, the extra-data decoder below 32
    bytes. *)
Theorem short_body_is_DecodingError (tag : Z) (data : list byte) :
  (IsEventType tag = true ->
   (length data < event_body_len tag)%nat ->
   DecodeEventRecord tag data = Err DecodingError)
  /\ ((length data < PACKET_RECORD_HDR_LEN)%nat ->
      DecodePacketRecord data = Err DecodingError)
  /\ ((length data < EXTRA_DATA_RECORD_HDR_LEN)%nat ->
      DecodeExtraDataRecord data = Err DecodingError).
Proof.
  split; [|split].
  - intros _ H. unfold DecodeEventRecord.
    rewrite decode_event_short by assumption. reflexivity.
  - intros H. unfold DecodePacketRecord.
    rewrite decode_packet_short by assumption. reflexivity.
  - intros H. unfold DecodeExtraDataRecord.
    rewrite decode_extra_data_short by assumption. reflexivity.
Qed.

Lemma short_body_is_DecodingError_witness :
  DecodeEventRecord UNIFIED2_IDS_EVENT_V2 sample_event_body = Err DecodingError
  /\ DecodePacketRecord (firstn 27 sample_packet_body) = Err DecodingError
  /\ DecodeExtraDataRecord sample_packet_body = Err DecodingError.
Proof.
  split; [|split].
  - apply (proj1 (short_body_is_DecodingError
                    UNIFIED2_IDS_EVENT_V2 sample_event_body)).
    + reflexivity.
    + vm_compute. lia.
  - apply (proj1 (proj2 (short_body_is_DecodingError
                           0 (firstn 27 sample_packet_body)))).
    vm_compute. lia.
  - apply (proj2 (proj2 (short_body_is_DecodingError 0 sample_packet_body))).
    vm_compute. lia.
Defined.

(** C10. Called with a tag that is none of 7, 72, 104 and 105 and a body
    of at least 44 bytes, [DecodeEventRecord] does not fail: it reads no
    address, leaves [IpSource] and [IpDestination] nil, and takes the
    fields from [SportItype] to [Blocked] from the bytes right behind the
    36-byte preamble. *)
Theorem DecodeEventRecord_unchecked_tag (tag : Z) (data : list byte)
    (Htag : IsEventType tag = false)
    (Hlen : (44 <= length data)%nat) :
  exists event,
    DecodeEventRecord tag data = Ok event
    /\ IpSource event = []
    /\ IpDestination event = []
    /\ preamble_of event data
    /\ ports_of 36 event data
    /\ MplsLabel event = 0
    /\ VlanId event = 0.
Proof.
  destruct (not_event_tag tag Htag) as (E4 & E6 & E2).
  exists (event_at tag data).
  split.
  { apply DecodeEventRecord_ok.
    unfold event_body_len, blocked_end, trailer_len, addr_len.
    rewrite E4, E6, E2. simpl. lia. }
  unfold event_at, addr_len, preamble_of, ports_of.
  rewrite E4, E6, E2.
  cbn -[skipn Uint32 Uint16 Uint8]. repeat split.
Qed.

Lemma DecodeEventRecord_unchecked_tag_witness :
  exists event,
    DecodeEventRecord UNIFIED2_PACKET sample_event_body = Ok event
    /\ IpSource event = []
    /\ IpDestination event = []
    /\ preamble_of event sample_event_body
    /\ ports_of 36 event sample_event_body
    /\ MplsLabel event = 0
    /\ VlanId event = 0.
Proof.
  apply (DecodeEventRecord_unchecked_tag UNIFIED2_PACKET sample_event_body).
  - reflexivity.
  - vm_compute. lia.
Defined.

(** ** The framer on every stream *)

Lemma Ok_inj {A : Type} (a b : A) : Ok a = Ok b -> a = b.
Proof. congruence. Qed.

Lemma ReadRawRecord_cases (file : File) :
  ReadRawRecord file = (Err EOF, file)
  \/ ReadRawRecord file = (Err ErrUnexpectedEOF, file)
  \/ ((8 <= length (unread file))%nat
      /\ (Z.to_nat (hdr_Len (header_at file)) <= length (body_at file))%nat
      /\ ReadRawRecord file
         = (Ok (mkRawRecord (hdr_Type (header_at file))
                  (firstn (Z.to_nat (hdr_Len (header_at file)))
                     (body_at file))),
            advance file (8 + Z.to_nat (hdr_Len (header_at file))))).
Proof.
  destruct (unread file) as [|b0 avail] eqn:EU.
  { left. apply ReadRawRecord_eof. assumption. }
  destruct (le_lt_dec 8 (length (unread file))) as [H8 | H8].
  2: { right. left. apply ReadRawRecord_short_header.
       rewrite EU in *. cbn [length] in *. lia. }
  destruct (le_lt_dec (Z.to_nat (hdr_Len (header_at file)))
              (length (body_at file))) as [HL | HL].
  { destruct (Z_le_gt_dec (hdr_Len (header_at file)) maxRW) as [HM | HM].
    - right. right. rewrite <- EU.
      repeat split; try assumption. apply ReadRawRecord_ok; assumption.
    - right. left. unfold maxRW in HM.
      apply ReadRawRecord_short_read; unfold maxRW; try assumption; lia. }
  destruct (body_at file) as [|b body] eqn:EB.
  - left. apply ReadRawRecord_no_body; try assumption.
    cbn [length] in HL. lia.
  - right. left. apply ReadRawRecord_short_body; try assumption;
      rewrite EB; cbn [length] in *; lia.
Qed.

Lemma dispatch_error (record : RawRecord) (e : error) :
  dispatch record = Err e -> e = DecodingError.
Proof.
  unfold dispatch, DecodeEventRecord, DecodePacketRecord,
    DecodeExtraDataRecord.
  repeat match goal with
         | |- context [if ?c then _ else _] => destruct c
         | |- context [match ?m ?d with Some _ => _ | None => _ end] =>
             destruct (m d) as [[? ?]|]
         end;
    intros H; try discriminate; injection H as <-; reflexivity.
Qed.

Example ReadRawRecord_unknown_record :
  ReadRawRecord unknown_record
  = (Ok (mkRawRecord 9 [xaa; xbb]), mkFile (contents unknown_record) 10).
Proof. vm_compute. reflexivity. Qed.

Example ReadRecord_unknown_record :
  ReadRecord unknown_record = (Ok None, mkFile (contents unknown_record) 10).
Proof. vm_compute. reflexivity. Qed.

Example ReadRecord_empty_event :
  ReadRecord empty_event = (Err DecodingError, mkFile (contents empty_event) 8).
Proof. vm_compute. reflexivity. Qed.

(** C1, at the input where the code departs from it.  The stream holds a
    complete header that declares a 4-byte body and nothing behind it:
    the call restores the offset, but the outcome is [io.EOF], the clean
    end of the stream, not [io.ErrUnexpectedEOF]. *)
Theorem ReadRawRecord_header_without_body :
  length (unread truncated_body) = 8%nat
  /\ hdr_Len (header_at truncated_body) = 4
  /\ body_at truncated_body = []
  /\ ReadRawRecord truncated_body = (Err EOF, truncated_body)
  /\ fst (ReadRawRecord truncated_body) <> Err ErrUnexpectedEOF.
Proof.
  repeat split; try (vm_compute; reflexivity).
  vm_compute. discriminate.
Qed.

(** C2. With no byte left at the current offset, [ReadRawRecord] returns
    [io.EOF] and leaves the stream, its offset included, as it was. *)
Theorem ReadRawRecord_at_end (file : File)
    (Hnone : length (unread file) = 0%nat) :
  ReadRawRecord file = (Err EOF, file)
  /\ offset (snd (ReadRawRecord file)) = offset file.
Proof.
  assert (E : ReadRawRecord file = (Err EOF, file)).
  { apply ReadRawRecord_eof. destruct (unread file); [reflexivity|].
    discriminate. }
  rewrite E. split; reflexivity.
Qed.

Lemma ReadRawRecord_at_end_witness :
  ReadRawRecord (mkFile (contents unknown_record) 11)
  = (Err EOF, mkFile (contents unknown_record) 11)
  /\ offset (snd (ReadRawRecord (mkFile (contents unknown_record) 11)))
     = 11%nat.
Proof.
  apply (ReadRawRecord_at_end (mkFile (contents unknown_record) 11)).
  reflexivity.
Defined.






(** C8, as stated, fails for [ReadRecord]: on a framed event record with
    an empty body the framer succeeds and the decoder does not, so the
    call returns [DecodingError] with the stream 8 bytes further on. *)
Lemma ReadRecord_DecodingError_advances :
  ReadRecord empty_event = (Err DecodingError, advance empty_event 8)
  /\ ~ record_all_or_nothing empty_event.
Proof.
  split; [vm_compute; reflexivity|].
  unfold record_all_or_nothing. rewrite ReadRecord_empty_event.
  cbn [offset empty_event].
  intros [[container [H _]] | H]; discriminate.
Qed.

(** C8, amended.  Every call of [ReadRawRecord] returns a record with
    the stream advanced past it, or leaves the offset as it was on
    entry.  A call of [ReadRecord] that returns [io.EOF] or
    [io.ErrUnexpectedEOF] leaves the stream as it was on entry; every
    other call, whether it returns a decoded record, the unknown outcome
    or [DecodingError], found a whole record and leaves the stream right
    behind it, 8 bytes and the declared length further on. *)
Theorem reads_restore_or_pass_the_record (file : File) :
  raw_all_or_nothing file
  /\ match ReadRecord file with
     | (Err EOF, file') | (Err ErrUnexpectedEOF, file') => file' = file
     | (_, file') =>
         (8 <= length (unread file))%nat
         /\ (Z.to_nat (hdr_Len (header_at file))
             <= length (body_at file))%nat
         /\ file' = advance file (8 + Z.to_nat (hdr_Len (header_at file)))
     end.
Proof.
  unfold raw_all_or_nothing, ReadRecord.
  destruct (ReadRawRecord_cases file) as [E | [E | (H8 & HL & E)]];
    rewrite E.
  - split; [right|]; reflexivity.
  - split; [right|]; reflexivity.
  - split.
    + left. eexists. split; [reflexivity|].
      cbn [raw_Data advance offset]. rewrite length_firstn. lia.
    + destruct (dispatch _) as [[decoded|]|e] eqn:ED; auto.
      apply dispatch_error in ED. subst e. auto.
Qed.

(** C9. When [ReadRawRecord] succeeds, the record carries the type of
    the header just read and exactly as many data bytes as that header
    declares, namely the bytes behind the header, and the stream has
    moved by 8 bytes and that length.  Whatever the outcome, a call that
    starts at a record boundary ends at a record boundary. *)
Theorem ReadRawRecord_keeps_boundary (file : File) :
  (forall record,
      fst (ReadRawRecord file) = Ok record ->
      length (raw_Data record) = Z.to_nat (hdr_Len (header_at file))
      /\ raw_Type record = hdr_Type (header_at file)
      /\ raw_Data record
         = firstn (Z.to_nat (hdr_Len (header_at file))) (body_at file)
      /\ offset (snd (ReadRawRecord file))
         = (offset file + 8 + Z.to_nat (hdr_Len (header_at file)))%nat
      /\ contents (snd (ReadRawRecord file)) = contents file)
  /\ (record_boundary (contents file) (offset file) ->
      record_boundary (contents (snd (ReadRawRecord file)))
        (offset (snd (ReadRawRecord file)))).
Proof.
  destruct (ReadRawRecord_cases file) as [E | [E | (H8 & HL & E)]];
    rewrite E; cbn [fst snd].
  - split; [intros record H; discriminate | auto].
  - split; [intros record H; discriminate | auto].
  - split.
    + intros record H. apply Ok_inj in H. subst record.
      cbn [raw_Data raw_Type advance offset contents].
      rewrite length_firstn. repeat split; try reflexivity; lia.
    + intros HB. cbn [advance offset contents].
      rewrite Nat.add_assoc.
      apply (boundary_next (contents file) (offset file) HB).
      exact H8.
Qed.

Lemma ReadRawRecord_keeps_boundary_witness :
  (length [xaa; xbb] = Z.to_nat (hdr_Len (header_at unknown_record))
   /\ 9 = hdr_Type (header_at unknown_record)
   /\ [xaa; xbb]
      = firstn (Z.to_nat (hdr_Len (header_at unknown_record)))
          (body_at unknown_record)
   /\ offset (snd (ReadRawRecord unknown_record))
      = (0 + 8 + Z.to_nat (hdr_Len (header_at unknown_record)))%nat
   /\ contents (snd (ReadRawRecord unknown_record))
      = contents unknown_record)
  /\ record_boundary (contents (snd (ReadRawRecord unknown_record)))
       (offset (snd (ReadRawRecord unknown_record))).
Proof.
  split.
  - apply (proj1 (ReadRawRecord_keeps_boundary unknown_record)
             (mkRawRecord 9 [xaa; xbb])).
    reflexivity.
  - apply (proj2 (ReadRawRecord_keeps_boundary unknown_record)).
    apply boundary_start.
Defined.

(** * Further properties of the decoders *)

(** ** Big-endian values as sums *)

Lemma land_shiftl_disjoint (a b n : Z) :
  0 <= n -> 0 <= a < 2 ^ n -> Z.land a (Z.shiftl b n) = 0.
Proof.
  intros Hn Ha. apply Z.bits_inj'. intros k Hk.
  rewrite Z.land_spec, Z.bits_0.
  destruct (Z.lt_ge_cases k n) as [Hlow | Hhigh].
  - rewrite Z.shiftl_spec_low by assumption. apply andb_false_r.
  - destruct (Z.eq_dec a 0) as [-> | Hnz].
    + rewrite Z.bits_0. reflexivity.
    + rewrite Z.bits_above_log2; [reflexivity | lia |].
      assert (Z.log2 a < n) by (apply Z.log2_lt_pow2; lia). lia.
Qed.

Lemma lor_shiftl_add (a b n : Z) :
  0 <= n -> 0 <= a < 2 ^ n -> Z.lor a (Z.shiftl b n) = a + b * 2 ^ n.
Proof.
  intros Hn Ha.
  pose proof (land_shiftl_disjoint a b n Hn Ha) as HD.
  rewrite <- Z.lxor_lor, <- Z.add_nocarry_lxor by assumption.
  rewrite Z.shiftl_mul_pow2 by assumption. reflexivity.
Qed.

Lemma Uint16_sum (b0 b1 : byte) (rest : list byte) :
  Uint16 (b0 :: b1 :: rest) = byte_val b0 * 2 ^ 8 + byte_val b1.
Proof.
  cbn [Uint16]. pose proof (byte_val_range b1).
  rewrite lor_shiftl_add by lia. lia.
Qed.

Lemma Uint32_sum (b0 b1 b2 b3 : byte) (rest : list byte) :
  Uint32 (b0 :: b1 :: b2 :: b3 :: rest)
  = byte_val b0 * 2 ^ 24 + byte_val b1 * 2 ^ 16
    + byte_val b2 * 2 ^ 8 + byte_val b3.
Proof.
  cbn [Uint32].
  pose proof (byte_val_range b0). pose proof (byte_val_range b1).
  pose proof (byte_val_range b2). pose proof (byte_val_range b3).
  rewrite (lor_shiftl_add (byte_val b3)) by lia.
  rewrite (lor_shiftl_add (byte_val b3 + _)) by nia.
  rewrite lor_shiftl_add by nia. lia.
Qed.

(** X1. [read] is big-endian: a [uint32] read takes four bytes off the
    reader and gives [b0 * 2^24 + b1 * 2^16 + b2 * 2^8 + b3], a [uint16]
    read takes two and gives [b0 * 2^8 + b1], a [uint8] read takes one;
    the rest of the reader is untouched. *)
Theorem read_is_big_endian (b0 b1 b2 b3 : byte) (rest : list byte) :
  read_uint32 (b0 :: b1 :: b2 :: b3 :: rest)
  = Some (byte_val b0 * 2 ^ 24 + byte_val b1 * 2 ^ 16
          + byte_val b2 * 2 ^ 8 + byte_val b3, rest)
  /\ read_uint16 (b0 :: b1 :: rest)
     = Some (byte_val b0 * 2 ^ 8 + byte_val b1, rest)
  /\ read_uint8 (b0 :: rest) = Some (byte_val b0, rest).
Proof.
  repeat split.
  - rewrite <- (Uint32_sum b0 b1 b2 b3 rest). reflexivity.
  - rewrite <- (Uint16_sum b0 b1 rest). reflexivity.
Qed.

(** ** Exact length thresholds *)

Lemma DecodeEventRecord_short (tag : Z) (data : list byte) :
  (length data < event_body_len tag)%nat ->
  DecodeEventRecord tag data = Err DecodingError.
Proof.
  intros H. unfold DecodeEventRecord.
  rewrite decode_event_short by assumption. reflexivity.
Qed.

Lemma event_body_len_table (tag : Z) :
  event_body_len tag
  = if tag =? 7 then 52%nat else if tag =? 72 then 76%nat
    else if tag =? 104 then 58%nat else if tag =? 105 then 82%nat
    else 44%nat.
Proof.
  unfold event_body_len, blocked_end, trailer_len, addr_len,
    is_v4, is_v6, is_v2, UNIFIED2_IDS_EVENT, UNIFIED2_IDS_EVENT_IP6,
    UNIFIED2_IDS_EVENT_V2, UNIFIED2_IDS_EVENT_IP6_V2.
  destruct (Z.eqb_spec tag 7); [subst; reflexivity|].
  destruct (Z.eqb_spec tag 72); [subst; reflexivity|].
  destruct (Z.eqb_spec tag 104); [subst; reflexivity|].
  destruct (Z.eqb_spec tag 105); [subst; reflexivity|].
  reflexivity.
Qed.

(** X2. For every tag, event tag or not, [DecodeEventRecord] succeeds
    exactly on the bodies that hold the whole layout of the tag: 52
    bytes for tag 7, 76 for 72, 58 for 104, 82 for 105 and 44 for any
    other tag; on every shorter body it returns [DecodingError]. *)
Theorem DecodeEventRecord_succeeds_iff (tag : Z) (data : list byte) :
  ((exists event, DecodeEventRecord tag data = Ok event)
   <-> (event_body_len tag <= length data)%nat)
  /\ (DecodeEventRecord tag data = Err DecodingError
      <-> (length data < event_body_len tag)%nat)
  /\ event_body_len tag
     = if tag =? 7 then 52%nat else if tag =? 72 then 76%nat
       else if tag =? 104 then 58%nat else if tag =? 105 then 82%nat
       else 44%nat.
Proof.
  destruct (le_lt_dec (event_body_len tag) (length data)) as [H | H].
  - pose proof (DecodeEventRecord_ok tag data H) as E.
    split; [|split].
    + split; [intros _; exact H | intros _; eexists; exact E].
    + rewrite E. split; [discriminate | lia].
    + apply event_body_len_table.
  - pose proof (DecodeEventRecord_short tag data H) as E.
    split; [|split].
    + rewrite E. split; [intros [event HE]; discriminate | lia].
    + split; [intros _; exact H | intros _; exact E].
    + apply event_body_len_table.
Qed.

(** X3. [DecodePacketRecord] returns [DecodingError] on a body of fewer
    than 28 bytes; on any other body it returns the packet whose seven
    fields are the big-endian words at offsets 0, 4, ..., 24, in the
    order sensor, event, event second, packet second, packet
    microsecond, link type, length, and whose data is the rest. *)
Theorem DecodePacketRecord_fields (data : list byte) :
  DecodePacketRecord data
  = if (length data <? 28)%nat then Err DecodingError
    else Ok {| pkt_SensorId := Uint32 data;
               pkt_EventId := Uint32 (skipn 4 data);
               pkt_EventSecond := Uint32 (skipn 8 data);
               pkt_PacketSecond := Uint32 (skipn 12 data);
               pkt_PacketMicrosecond := Uint32 (skipn 16 data);
               pkt_LinkType := Uint32 (skipn 20 data);
               pkt_Length := Uint32 (skipn 24 data);
               pkt_Data := skipn 28 data |}.
Proof.
  unfold DecodePacketRecord.
  destruct (Nat.ltb_spec (length data) 28) as [H | H].
  - rewrite decode_packet_short by exact H. reflexivity.
  - rewrite decode_packet_ok by exact H. reflexivity.
Qed.

(** X4. [DecodeExtraDataRecord] returns [DecodingError] on a body of
    fewer than 32 bytes; on any other body it returns the record whose
    eight fields are the big-endian words at offsets 0, 4, ..., 28, in
    the order event type, event length, sensor, event, event second,
    type, data type, data length, and whose data is the rest. *)
Theorem DecodeExtraDataRecord_fields (data : list byte) :
  DecodeExtraDataRecord data
  = if (length data <? 32)%nat then Err DecodingError
    else Ok {| ext_EventType := Uint32 data;
               ext_EventLength := Uint32 (skipn 4 data);
               ext_SensorId := Uint32 (skipn 8 data);
               ext_EventId := Uint32 (skipn 12 data);
               ext_EventSecond := Uint32 (skipn 16 data);
               ext_Type := Uint32 (skipn 20 data);
               ext_DataType := Uint32 (skipn 24 data);
               ext_DataLength := Uint32 (skipn 28 data);
               ext_Data := skipn 32 data |}.
Proof.
  unfold DecodeExtraDataRecord.
  destruct (Nat.ltb_spec (length data) 32) as [H | H].
  - rewrite decode_extra_data_short by exact H. reflexivity.
  - rewrite decode_extra_data_ok by exact H. reflexivity.
Qed.

(** ** Where the event fields behind the addresses lie *)

(** X5. For the four event tags the six fields from [SportItype] to
    [Blocked] are read right behind the address pair: at offset 44 for
    the 4-byte addresses of tags 7 and 104, at offset 68 for the 16-byte
    addresses of tags 72 and 105. *)
Theorem DecodeEventRecord_ports_by_tag (tag : Z) (data : list byte)
    (Htag : IsEventType tag = true)
    (Hlen : (event_body_len tag <= length data)%nat) :
  exists event,
    DecodeEventRecord tag data = Ok event
    /\ ports_of
         (if (tag =? UNIFIED2_IDS_EVENT) || (tag =? UNIFIED2_IDS_EVENT_V2)
          then 44 else 68) event data.
Proof.
  exists (event_at tag data).
  split; [apply DecodeEventRecord_ok; assumption|].
  destruct (tag_cases tag) as [T | [T | [T | [T | T]]]];
    try (subst tag; unfold ports_of, event_at;
         cbn -[skipn Uint32 Uint16 Uint8]; repeat split).
  rewrite T in Htag. discriminate.
Qed.

Lemma DecodeEventRecord_ports_by_tag_witness :
  exists event,
    DecodeEventRecord UNIFIED2_IDS_EVENT sample_event_body = Ok event
    /\ ports_of 44 event sample_event_body.
Proof.
  apply (DecodeEventRecord_ports_by_tag UNIFIED2_IDS_EVENT sample_event_body).
  - reflexivity.
  - vm_compute. lia.
Defined.

(** ** Bytes behind the last field *)

Lemma skipn_app_le (k : nat) (l more : list byte) :
  (k <= length l)%nat -> skipn k (l ++ more) = skipn k l ++ more.
Proof.
  intros H. rewrite skipn_app.
  replace (k - length l)%nat with 0%nat by lia. reflexivity.
Qed.

Lemma Uint32_app (l more : list byte) :
  (4 <= length l)%nat -> Uint32 (l ++ more) = Uint32 l.
Proof.
  destruct l as [|b0 [|b1 [|b2 [|b3 l]]]]; cbn [length]; intros H;
    try lia; reflexivity.
Qed.

Lemma Uint16_app (l more : list byte) :
  (2 <= length l)%nat -> Uint16 (l ++ more) = Uint16 l.
Proof.
  destruct l as [|b0 [|b1 l]]; cbn [length]; intros H; try lia; reflexivity.
Qed.

Lemma Uint8_app (l more : list byte) :
  (1 <= length l)%nat -> Uint8 (l ++ more) = Uint8 l.
Proof.
  destruct l as [|b0 l]; cbn [length]; intros H; try lia; reflexivity.
Qed.

Section Appended.

Variables data more : list byte.

Lemma Uint32_skipn_app (k : nat) :
  (k + 4 <= length data)%nat ->
  Uint32 (skipn k (data ++ more)) = Uint32 (skipn k data).
Proof.
  intros H. rewrite skipn_app_le by lia.
  apply Uint32_app. rewrite length_skipn. lia.
Qed.

Lemma Uint16_skipn_app (k : nat) :
  (k + 2 <= length data)%nat ->
  Uint16 (skipn k (data ++ more)) = Uint16 (skipn k data).
Proof.
  intros H. rewrite skipn_app_le by lia.
  apply Uint16_app. rewrite length_skipn. lia.
Qed.

Lemma Uint8_skipn_app (k : nat) :
  (k + 1 <= length data)%nat ->
  Uint8 (skipn k (data ++ more)) = Uint8 (skipn k data).
Proof.
  intros H. rewrite skipn_app_le by lia.
  apply Uint8_app. rewrite length_skipn. lia.
Qed.

Lemma firstn_skipn_app (n k : nat) :
  (k + n <= length data)%nat ->
  firstn n (skipn k (data ++ more)) = firstn n (skipn k data).
Proof.
  intros H. rewrite skipn_app_le by lia. rewrite firstn_app.
  rewrite length_skipn.
  replace (n - (length data - k))%nat with 0%nat by lia.
  cbn [firstn]. apply app_nil_r.
Qed.

Lemma event_at_app (tag : Z) :
  (event_body_len tag <= length data)%nat ->
  event_at tag (data ++ more) = event_at tag data.
Proof.
  unfold event_body_len, blocked_end, trailer_len, event_at.
  intros H.
  destruct (is_v2 tag);
    rewrite (Uint32_app data more) by lia;
    rewrite !Uint32_skipn_app, !Uint16_skipn_app, !Uint8_skipn_app,
      !firstn_skipn_app by lia;
    reflexivity.
Qed.

End Appended.

(** X6. The event decoder does not look behind the last field of the
    layout and does not mind what is there: bytes appended to a body
    that already holds the whole layout of its tag change nothing in
    the result. *)
Theorem DecodeEventRecord_ignores_trailing_bytes
    (tag : Z) (data more : list byte)
    (Hlen : (event_body_len tag <= length data)%nat) :
  DecodeEventRecord tag (data ++ more) = DecodeEventRecord tag data.
Proof.
  rewrite !DecodeEventRecord_ok; [| assumption | rewrite length_app; lia].
  f_equal. apply event_at_app. assumption.
Qed.

Lemma DecodeEventRecord_ignores_trailing_bytes_witness :
  DecodeEventRecord UNIFIED2_IDS_EVENT (sample_event_body ++ [xde; xad])
  = DecodeEventRecord UNIFIED2_IDS_EVENT sample_event_body.
Proof.
  apply (DecodeEventRecord_ignores_trailing_bytes
           UNIFIED2_IDS_EVENT sample_event_body [xde; xad]).
  vm_compute. lia.
Defined.

(** ** Ranges of the decoded fields *)

Lemma event_at_in_range (tag : Z) (data : list byte) :
  EventRecord_in_range (event_at tag data).
Proof.
  unfold EventRecord_in_range, event_at.
  cbn [SensorId EventId EventSecond EventMicrosecond SignatureId GeneratorId
       SignatureRevision ClassificationId Priority SportItype DportIcode
       Protocol ImpactFlag Impact Blocked MplsLabel VlanId].
  repeat match goal with |- _ /\ _ => split end;
    try apply Uint32_range; try apply Uint16_range; try apply Uint8_range;
    destruct (is_v2 tag);
    first [apply Uint32_range | apply Uint16_range
          | unfold is_uint32, is_uint16; lia].
Qed.

(** X7. Every integer field of an event that [DecodeEventRecord]
    returns is a value of its Go type: the [uint32] fields lie below
    [2^32], the two [uint16] fields below [2^16] and the four [uint8]
    fields below [2^8], and none is negative. *)
Theorem DecodeEventRecord_in_range
    (tag : Z) (data : list byte) (event : EventRecord)
    (Hok : DecodeEventRecord tag data = Ok event) :
  EventRecord_in_range event.
Proof.
  destruct (le_lt_dec (event_body_len tag) (length data)) as [H | H].
  - rewrite DecodeEventRecord_ok in Hok by assumption.
    apply Ok_inj in Hok. subst event. apply event_at_in_range.
  - rewrite DecodeEventRecord_short in Hok by assumption. discriminate.
Qed.

Lemma DecodeEventRecord_in_range_witness : EventRecord_in_range sample_event.
Proof.
  apply (DecodeEventRecord_in_range UNIFIED2_IDS_EVENT sample_event_body).
  reflexivity.
Defined.

(** * Further properties of the framer *)

Lemma ReadRawRecord_outcomes (file : File) :
  (unread file = [] /\ ReadRawRecord file = (Err EOF, file))
  \/ ((0 < length (unread file) < 8)%nat
      /\ ReadRawRecord file = (Err ErrUnexpectedEOF, file))
  \/ ((8 <= length (unread file))%nat
      /\ body_at file = [] /\ 0 < hdr_Len (header_at file)
      /\ ReadRawRecord file = (Err EOF, file))
  \/ ((8 <= length (unread file))%nat
      /\ (0 < length (body_at file))%nat
      /\ ((length (body_at file)
           < Z.to_nat (hdr_Len (header_at file)))%nat
          \/ maxRW < hdr_Len (header_at file))
      /\ ReadRawRecord file = (Err ErrUnexpectedEOF, file))
  \/ ((8 <= length (unread file))%nat
      /\ (Z.to_nat (hdr_Len (header_at file)) <= length (body_at file))%nat
      /\ hdr_Len (header_at file) <= maxRW
      /\ ReadRawRecord file
         = (Ok (mkRawRecord (hdr_Type (header_at file))
                  (firstn (Z.to_nat (hdr_Len (header_at file)))
                     (body_at file))),
            advance file (8 + Z.to_nat (hdr_Len (header_at file))))).
Proof.
  destruct (unread file) as [|b0 avail] eqn:EU.
  { left. split; [reflexivity|]. apply ReadRawRecord_eof. assumption. }
  rewrite <- EU.
  assert (H0 : (0 < length (unread file))%nat)
    by (rewrite EU; cbn [length]; lia).
  destruct (le_lt_dec 8 (length (unread file))) as [H8 | H8].
  2: { right. left. split; [lia|].
       apply ReadRawRecord_short_header. lia. }
  destruct (body_at file) as [|b body] eqn:EB.
  { destruct (Z_le_gt_dec (hdr_Len (header_at file)) 0) as [HZ | HZ].
    - do 4 right. rewrite <- EB.
      assert (HL : (Z.to_nat (hdr_Len (header_at file))
                    <= length (body_at file))%nat) by lia.
      assert (HM : hdr_Len (header_at file) <= maxRW)
        by (unfold maxRW; lia).
      repeat split; try assumption. apply ReadRawRecord_ok; assumption.
    - do 2 right. left. repeat split; try assumption; try lia.
      apply ReadRawRecord_no_body; try assumption. lia. }
  rewrite <- EB.
  assert (HB : (0 < length (body_at file))%nat)
    by (rewrite EB; cbn [length]; lia).
  destruct (le_lt_dec (Z.to_nat (hdr_Len (header_at file)))
              (length (body_at file))) as [HL | HL].
  - destruct (Z_le_gt_dec (hdr_Len (header_at file)) maxRW) as [HM | HM].
    + do 4 right. repeat split; try assumption.
      apply ReadRawRecord_ok; assumption.
    + do 3 right. left.
      assert (HC : maxRW < hdr_Len (header_at file)) by lia.
      repeat split; try assumption; [right; exact HC|].
      apply ReadRawRecord_short_read; try assumption. right. exact HC.
  - do 3 right. left.
    repeat split; try assumption; [left; exact HL|].
    apply ReadRawRecord_short_read; try assumption. left. lia.
Qed.

Lemma length_nil_iff (l : list byte) : l = [] <-> length l = 0%nat.
Proof. destruct l; cbn [length]; split; intros H; congruence. Qed.

(** X8. What [ReadRawRecord] returns, exactly.  It returns a record if
    and only if the header and the whole body it declares are there
    and the declared length is at most [maxRW] (2^30), what one read of
    the file gives.  It returns [io.EOF] if and only if nothing is left
    to read, or the header is there, declares a non-empty body and
    nothing follows it.  It returns [io.ErrUnexpectedEOF] if and only
    if some but not all of the header is there, or a whole header is
    followed by at least one byte but not by the whole body, or by a
    body declared longer than [maxRW].  It never returns
    [DecodingError]. *)
Theorem ReadRawRecord_outcome_iff (file : File) :
  ((exists record, fst (ReadRawRecord file) = Ok record)
   <-> ((8 <= length (unread file))%nat
        /\ (Z.to_nat (hdr_Len (header_at file))
            <= length (body_at file))%nat
        /\ hdr_Len (header_at file) <= 2 ^ 30))
  /\ (fst (ReadRawRecord file) = Err EOF
      <-> (length (unread file) = 0%nat
           \/ ((8 <= length (unread file))%nat
               /\ length (body_at file) = 0%nat
               /\ 0 < hdr_Len (header_at file))))
  /\ (fst (ReadRawRecord file) = Err ErrUnexpectedEOF
      <-> ((0 < length (unread file) < 8)%nat
           \/ ((8 <= length (unread file))%nat
               /\ (0 < length (body_at file))%nat
               /\ ((length (body_at file)
                    < Z.to_nat (hdr_Len (header_at file)))%nat
                   \/ 2 ^ 30 < hdr_Len (header_at file)))))
  /\ fst (ReadRawRecord file) <> Err DecodingError.
Proof.
  destruct (ReadRawRecord_outcomes file)
    as [(H & E) | [(H & E) | [(H & HB & HL & E) | [(H & HB & HC & E)
       | (H & HB & HM & E)]]]];
    rewrite E; cbn [fst]; unfold maxRW in *;
    try (apply length_nil_iff in H); try (apply length_nil_iff in HB);
    (split; [|split; [|split]]); try discriminate;
    (split; [ try discriminate; try (intros [record HR]; discriminate);
              intros _; first [ lia | tauto ]
            | try (intros _; first [ reflexivity | eexists; reflexivity ]);
              intros HF; exfalso; lia ]).
Qed.

(** X9. A header that declares an empty body is a whole record, even as
    the last 8 bytes of the file: the call returns the record with
    empty data and the stream 8 bytes further on, not [io.EOF]. *)
Theorem ReadRawRecord_empty_body (file : File)
    (Hheader : (8 <= length (unread file))%nat)
    (Hlen : hdr_Len (header_at file) = 0) :
  ReadRawRecord file
  = (Ok (mkRawRecord (hdr_Type (header_at file)) []), advance file 8).
Proof.
  rewrite ReadRawRecord_ok
    by (try assumption; rewrite Hlen; unfold maxRW; cbn; lia).
  rewrite Hlen. reflexivity.
Qed.

Lemma ReadRawRecord_empty_body_witness :
  ReadRawRecord empty_event = (Ok (mkRawRecord 7 []), advance empty_event 8).
Proof.
  apply (ReadRawRecord_empty_body empty_event).
  - vm_compute. lia.
  - reflexivity.
Defined.

(** ** A file that grows *)

Lemma firstn_app_le (n : nat) (l more : list byte) :
  (n <= length l)%nat -> firstn n (l ++ more) = firstn n l.
Proof.
  intros H. rewrite firstn_app.
  replace (n - length l)%nat with 0%nat by lia.
  cbn [firstn]. apply app_nil_r.
Qed.

(** X10. A record that can be read stays the same record when the
    writer appends to the file: if the call succeeds on a file, it
    returns the same record and ends at the same offset on every
    extension of that file. *)
Theorem ReadRawRecord_stable_under_append
    (c more : list byte) (o : nat) (record : RawRecord) (file' : File)
    (Hok : ReadRawRecord (mkFile c o) = (Ok record, file')) :
  ReadRawRecord (mkFile (c ++ more) o)
  = (Ok record, mkFile (c ++ more) (offset file')).
Proof.
  destruct (ReadRawRecord_outcomes (mkFile c o))
    as [(H & E) | [(H & E) | [(H & HB & HL & E) | [(H & HB & HC & E)
       | (H & HB & HM & E)]]]];
    rewrite E in Hok; try discriminate.
  injection Hok as <- <-.
  assert (Ho : (o <= length c)%nat).
  { unfold unread in H. cbn [contents offset] in H.
    rewrite length_skipn in H. lia. }
  assert (EU : unread (mkFile (c ++ more) o) = unread (mkFile c o) ++ more).
  { unfold unread. cbn [contents offset]. apply skipn_app_le. exact Ho. }
  assert (EH : header_at (mkFile (c ++ more) o) = header_at (mkFile c o)).
  { unfold header_at. rewrite EU. apply decode_RawHeader_app. exact H. }
  assert (EB : body_at (mkFile (c ++ more) o) = body_at (mkFile c o) ++ more).
  { unfold body_at. rewrite EU. apply skipn_app_le. exact H. }
  rewrite ReadRawRecord_ok.
  - rewrite EH, EB, firstn_app_le by exact HB. reflexivity.
  - rewrite EU, length_app. lia.
  - rewrite EH, EB, length_app. lia.
  - rewrite EH. exact HM.
Qed.

Lemma ReadRawRecord_stable_under_append_witness :
  ReadRawRecord (mkFile (contents unknown_record ++ [x00; x00; x00]) 0)
  = (Ok (mkRawRecord 9 [xaa; xbb]),
     mkFile (contents unknown_record ++ [x00; x00; x00]) 10).
Proof.
  apply (ReadRawRecord_stable_under_append (contents unknown_record)
           [x00; x00; x00] 0 (mkRawRecord 9 [xaa; xbb])
           (mkFile (contents unknown_record) 10)).
  reflexivity.
Defined.

(** * Further properties of the dispatcher *)

Lemma ReadRecord_file (file : File) :
  snd (ReadRecord file) = snd (ReadRawRecord file).
Proof.
  unfold ReadRecord.
  destruct (ReadRawRecord file) as [[record | e] file']; [|reflexivity].
  destruct (dispatch record) as [[decoded|]|e]; reflexivity.
Qed.

(** X11. Reading only moves the offset, and only forwards and within
    the file: [ReadRecord] leaves the stream where [ReadRawRecord]
    leaves it whatever the decoder does, the contents of the file are
    untouched, the offset never decreases, and an offset that was
    within the file still is. *)
Theorem ReadRecord_stays_in_file (file : File) :
  snd (ReadRecord file) = snd (ReadRawRecord file)
  /\ contents (snd (ReadRecord file)) = contents file
  /\ (offset file <= offset (snd (ReadRecord file)))%nat
  /\ ((offset file <= length (contents file))%nat ->
      (offset (snd (ReadRecord file)) <= length (contents file))%nat).
Proof.
  split; [apply ReadRecord_file|].
  rewrite ReadRecord_file.
  destruct (ReadRawRecord_outcomes file)
    as [(H & E) | [(H & E) | [(H & HB & HL & E) | [(H & HB & HC & E)
       | (H & HB & HM & E)]]]];
    rewrite E; cbn [snd]; try (repeat split; auto; lia).
  cbn [advance contents offset].
  split; [reflexivity|]. split; [lia|]. intros Ho.
  unfold body_at in HB. rewrite length_skipn in HB.
  unfold unread in *. rewrite length_skipn in *. lia.
Qed.

Lemma ReadRecord_stays_in_file_witness :
  (offset (snd (ReadRecord sample_event_file))
   <= length (contents sample_event_file))%nat.
Proof.
  apply (ReadRecord_stays_in_file sample_event_file).
  vm_compute. lia.
Defined.

Lemma dispatch_kind (record : RawRecord) (decoded : Decoded) :
  dispatch record = Ok (Some decoded) ->
  match decoded with
  | DecodedEvent _ => IsEventType (raw_Type record) = true
  | DecodedPacket _ => raw_Type record = UNIFIED2_PACKET
  | DecodedExtraData _ => raw_Type record = UNIFIED2_EXTRA_DATA
  end.
Proof.
  unfold dispatch. fold (IsEventType (raw_Type record)).
  destruct (IsEventType (raw_Type record)) eqn:EE.
  { destruct (DecodeEventRecord _ _); intros H; [|discriminate].
    apply Ok_inj in H. injection H as <-. reflexivity. }
  destruct (Z.eqb_spec (raw_Type record) UNIFIED2_PACKET) as [EP | EP].
  { destruct (DecodePacketRecord _); intros H; [|discriminate].
    apply Ok_inj in H. injection H as <-. exact EP. }
  destruct (Z.eqb_spec (raw_Type record) UNIFIED2_EXTRA_DATA) as [EX | EX].
  { destruct (DecodeExtraDataRecord _); intros H; [|discriminate].
    apply Ok_inj in H. injection H as <-. exact EX. }
  discriminate.
Qed.

(** X12. The container tells the truth about what it holds: its [Type]
    is the type of the header that was read, and it holds an
    [EventRecord] only under a type for which [IsEventType] is true, a
    [PacketRecord] only under type 2 and an [ExtraDataRecord] only under
    type 110. *)
Theorem ReadRecord_container_type
    (file file' : File) (container : RecordContainer)
    (Hok : ReadRecord file = (Ok (Some container), file')) :
  rc_Type container = hdr_Type (header_at file)
  /\ match rc_Record container with
     | DecodedEvent _ => IsEventType (rc_Type container) = true
     | DecodedPacket _ => rc_Type container = UNIFIED2_PACKET
     | DecodedExtraData _ => rc_Type container = UNIFIED2_EXTRA_DATA
     end.
Proof.
  unfold ReadRecord in Hok.
  destruct (ReadRawRecord_outcomes file)
    as [(H & E) | [(H & E) | [(H & HB & HL & E) | [(H & HB & HC & E)
       | (H & HB & HM & E)]]]];
    rewrite E in Hok; try discriminate.
  destruct (dispatch _) as [[decoded|]|e] eqn:ED; try discriminate.
  apply dispatch_kind in ED. cbn [raw_Type] in ED, Hok.
  assert (EC : container
               = mkRecordContainer (hdr_Type (header_at file)) decoded)
    by congruence.
  subst container. cbn [rc_Type rc_Record]. split; [reflexivity | exact ED].
Qed.

Lemma ReadRecord_container_type_witness :
  UNIFIED2_PACKET = hdr_Type (header_at sample_packet_file)
  /\ UNIFIED2_PACKET = UNIFIED2_PACKET.
Proof.
  apply (ReadRecord_container_type sample_packet_file
           (advance sample_packet_file 39)
           (mkRecordContainer UNIFIED2_PACKET
              (DecodedPacket
                 {| pkt_SensorId := 1; pkt_EventId := 2;
                    pkt_EventSecond := 1000000;
                    pkt_PacketSecond := 1000001;
                    pkt_PacketMicrosecond := 7; pkt_LinkType := 1;
                    pkt_Length := 255; pkt_Data := [xaa; xbb; xcc] |}))).
  vm_compute. reflexivity.
Defined.

(** ** Framer and decoder together *)

Lemma dispatch_event (record : RawRecord) :
  IsEventType (raw_Type record) = true ->
  dispatch record
  = match DecodeEventRecord (raw_Type record) (raw_Data record) with
    | Ok event => Ok (Some (DecodedEvent event))
    | Err e => Err e
    end.
Proof.
  unfold dispatch. fold (IsEventType (raw_Type record)).
  intros ->. reflexivity.
Qed.

Lemma dispatch_packet (record : RawRecord) :
  raw_Type record = UNIFIED2_PACKET ->
  dispatch record
  = match DecodePacketRecord (raw_Data record) with
    | Ok packet => Ok (Some (DecodedPacket packet))
    | Err e => Err e
    end.
Proof. unfold dispatch. intros ->. reflexivity. Qed.

Lemma dispatch_extra_data (record : RawRecord) :
  raw_Type record = UNIFIED2_EXTRA_DATA ->
  dispatch record
  = match DecodeExtraDataRecord (raw_Data record) with
    | Ok extra => Ok (Some (DecodedExtraData extra))
    | Err e => Err e
    end.
Proof. unfold dispatch. intros ->. reflexivity. Qed.

Lemma event_at_firstn (tag : Z) (n : nat) (data : list byte) :
  (event_body_len tag <= n)%nat -> (n <= length data)%nat ->
  event_at tag (firstn n data) = event_at tag data.
Proof.
  intros Hn Hd. rewrite <- (firstn_skipn n data) at 2.
  symmetry. apply event_at_app. rewrite length_firstn. lia.
Qed.

(** X13. A whole record with an event tag and a declared length that
    covers the layout of the tag and is at most [maxRW] (2^30), what
    one read of the file gives, is returned as an event: the container
    carries the tag, the event fields are the bytes behind the 8-byte
    header at the offsets of the layout, and the stream is behind the
    record. *)
Theorem ReadRecord_event (file : File)
    (Hheader : (8 <= length (unread file))%nat)
    (Hbody : (Z.to_nat (hdr_Len (header_at file))
              <= length (body_at file))%nat)
    (Hcap : hdr_Len (header_at file) <= maxRW)
    (Htag : IsEventType (hdr_Type (header_at file)) = true)
    (Hlen : (event_body_len (hdr_Type (header_at file))
             <= Z.to_nat (hdr_Len (header_at file)))%nat) :
  ReadRecord file
  = (Ok (Some (mkRecordContainer (hdr_Type (header_at file))
                 (DecodedEvent
                    (event_at (hdr_Type (header_at file)) (body_at file))))),
     advance file (8 + Z.to_nat (hdr_Len (header_at file)))).
Proof.
  unfold ReadRecord. rewrite ReadRawRecord_ok by assumption.
  rewrite dispatch_event by exact Htag. cbn [raw_Type raw_Data].
  rewrite DecodeEventRecord_ok by (rewrite length_firstn; lia).
  rewrite event_at_firstn by assumption. reflexivity.
Qed.

Lemma ReadRecord_event_witness :
  ReadRecord sample_event_file
  = (Ok (Some (mkRecordContainer (hdr_Type (header_at sample_event_file))
                 (DecodedEvent
                    (event_at (hdr_Type (header_at sample_event_file))
                       (body_at sample_event_file))))),
     advance sample_event_file
       (8 + Z.to_nat (hdr_Len (header_at sample_event_file)))).
Proof.
  apply (ReadRecord_event sample_event_file).
  - vm_compute. lia.
  - vm_compute. lia.
  - vm_compute. discriminate.
  - reflexivity.
  - vm_compute. lia.
Defined.

(** X14. A whole record of type 2 that declares at least 28 and at
    most [maxRW] (2^30) bytes is returned as a packet whose data is the declared body from byte 28
    on, [length - 28] bytes: the data ends where the record ends,
    whatever follows it in the file. *)
Theorem ReadRecord_packet (file : File)
    (Hheader : (8 <= length (unread file))%nat)
    (Hbody : (Z.to_nat (hdr_Len (header_at file))
              <= length (body_at file))%nat)
    (Hcap : hdr_Len (header_at file) <= maxRW)
    (Htag : hdr_Type (header_at file) = UNIFIED2_PACKET)
    (Hlen : (28 <= Z.to_nat (hdr_Len (header_at file)))%nat) :
  exists packet,
    ReadRecord file
    = (Ok (Some (mkRecordContainer UNIFIED2_PACKET (DecodedPacket packet))),
       advance file (8 + Z.to_nat (hdr_Len (header_at file))))
    /\ pkt_Data packet
       = skipn 28 (firstn (Z.to_nat (hdr_Len (header_at file)))
                     (body_at file))
    /\ length (pkt_Data packet)
       = (Z.to_nat (hdr_Len (header_at file)) - 28)%nat.
Proof.
  unfold ReadRecord. rewrite ReadRawRecord_ok by assumption.
  rewrite dispatch_packet by exact Htag. cbn [raw_Type raw_Data].
  unfold DecodePacketRecord.
  rewrite decode_packet_ok
    by (unfold PACKET_RECORD_HDR_LEN; rewrite length_firstn; lia).
  rewrite Htag. eexists. split; [reflexivity|].
  cbn [pkt_Data]. unfold PACKET_RECORD_HDR_LEN.
  split; [reflexivity|]. rewrite length_skipn, length_firstn. lia.
Qed.

Lemma ReadRecord_packet_witness :
  exists packet,
    ReadRecord sample_packet_file
    = (Ok (Some (mkRecordContainer UNIFIED2_PACKET (DecodedPacket packet))),
       advance sample_packet_file 39)
    /\ pkt_Data packet = [xaa; xbb; xcc]
    /\ length (pkt_Data packet) = 3%nat.
Proof.
  apply (ReadRecord_packet sample_packet_file).
  - vm_compute. lia.
  - vm_compute. lia.
  - vm_compute. discriminate.
  - reflexivity.
  - vm_compute. lia.
Defined.

(** X15. A whole record of type 110 that declares at least 32 and at
    most [maxRW] (2^30) bytes is returned as an extra-data record whose data is the declared body
    from byte 32 on, [length - 32] bytes. *)
Theorem ReadRecord_extra_data (file : File)
    (Hheader : (8 <= length (unread file))%nat)
    (Hbody : (Z.to_nat (hdr_Len (header_at file))
              <= length (body_at file))%nat)
    (Hcap : hdr_Len (header_at file) <= maxRW)
    (Htag : hdr_Type (header_at file) = UNIFIED2_EXTRA_DATA)
    (Hlen : (32 <= Z.to_nat (hdr_Len (header_at file)))%nat) :
  exists extra,
    ReadRecord file
    = (Ok (Some (mkRecordContainer UNIFIED2_EXTRA_DATA
                   (DecodedExtraData extra))),
       advance file (8 + Z.to_nat (hdr_Len (header_at file))))
    /\ ext_Data extra
       = skipn 32 (firstn (Z.to_nat (hdr_Len (header_at file)))
                     (body_at file))
    /\ length (ext_Data extra)
       = (Z.to_nat (hdr_Len (header_at file)) - 32)%nat.
Proof.
  unfold ReadRecord. rewrite ReadRawRecord_ok by assumption.
  rewrite dispatch_extra_data by exact Htag. cbn [raw_Type raw_Data].
  unfold DecodeExtraDataRecord.
  rewrite decode_extra_data_ok
    by (unfold EXTRA_DATA_RECORD_HDR_LEN; rewrite length_firstn; lia).
  rewrite Htag. eexists. split; [reflexivity|].
  cbn [ext_Data]. unfold EXTRA_DATA_RECORD_HDR_LEN.
  split; [reflexivity|]. rewrite length_skipn, length_firstn. lia.
Qed.

Lemma ReadRecord_extra_data_witness :
  exists extra,
    ReadRecord sample_extra_file
    = (Ok (Some (mkRecordContainer UNIFIED2_EXTRA_DATA
                   (DecodedExtraData extra))),
       advance sample_extra_file 42)
    /\ ext_Data extra = [xde; xad]
    /\ length (ext_Data extra) = 2%nat.
Proof.
  apply (ReadRecord_extra_data sample_extra_file).
  - vm_compute. lia.
  - vm_compute. lia.
  - vm_compute. discriminate.
  - reflexivity.
  - vm_compute. lia.
Defined.

(** ** Which errors [ReadRecord] returns *)

Lemma dispatch_unknown (record : RawRecord) :
  IsEventType (raw_Type record) = false ->
  raw_Type record <> UNIFIED2_PACKET ->
  raw_Type record <> UNIFIED2_EXTRA_DATA ->
  dispatch record = Ok None.
Proof.
  unfold dispatch. fold (IsEventType (raw_Type record)).
  intros -> HP HX.
  destruct (Z.eqb_spec (raw_Type record) UNIFIED2_PACKET); [contradiction|].
  destruct (Z.eqb_spec (raw_Type record) UNIFIED2_EXTRA_DATA);
    [contradiction|].
  reflexivity.
Qed.

(** X16. On a whole record, [ReadRecord] returns [DecodingError] if and
    only if the declared length is too short for the decoder the tag
    selects: an event tag with fewer bytes than its layout, type 2 with
    fewer than 28, type 110 with fewer than 32.  A record of any other
    type is never a decoding error, however short. *)
Theorem ReadRecord_DecodingError_iff (file : File)
    (Hheader : (8 <= length (unread file))%nat)
    (Hbody : (Z.to_nat (hdr_Len (header_at file))
              <= length (body_at file))%nat) :
  fst (ReadRecord file) = Err DecodingError
  <-> ((IsEventType (hdr_Type (header_at file)) = true
        /\ (Z.to_nat (hdr_Len (header_at file))
            < event_body_len (hdr_Type (header_at file)))%nat)
       \/ (hdr_Type (header_at file) = UNIFIED2_PACKET
           /\ (Z.to_nat (hdr_Len (header_at file)) < 28)%nat)
       \/ (hdr_Type (header_at file) = UNIFIED2_EXTRA_DATA
           /\ (Z.to_nat (hdr_Len (header_at file)) < 32)%nat)).
Proof.
  destruct (Z_le_gt_dec (hdr_Len (header_at file)) maxRW) as [Hcap | Hcap].
  2: { assert (HT : (event_body_len (hdr_Type (header_at file)) <= 82)%nat).
       { rewrite event_body_len_table.
         repeat match goal with
                | |- context [if ?c then _ else _] => destruct c
                end; lia. }
       unfold maxRW in Hcap.
       unfold ReadRecord.
       rewrite ReadRawRecord_short_read;
         [| assumption | lia | right; unfold maxRW; lia].
       cbn [fst]. split; [discriminate|].
       intros [[_ H] | [[_ H] | [_ H]]]; lia. }
  unfold ReadRecord. rewrite ReadRawRecord_ok by assumption.
  set (tag := hdr_Type (header_at file)).
  set (len := Z.to_nat (hdr_Len (header_at file))) in *.
  assert (HF : length (firstn len (body_at file)) = len)
    by (rewrite length_firstn; lia).
  destruct (IsEventType tag) eqn:EE.
  { rewrite dispatch_event by exact EE. cbn [raw_Type raw_Data].
    assert (HP : tag <> UNIFIED2_PACKET)
      by (intros HT; rewrite HT in EE; discriminate).
    assert (HX : tag <> UNIFIED2_EXTRA_DATA)
      by (intros HT; rewrite HT in EE; discriminate).
    destruct (le_lt_dec (event_body_len tag) len) as [HL | HL].
    - rewrite DecodeEventRecord_ok by lia. cbn [fst].
      split; [discriminate|].
      intros [[_ H] | [[H _] | [H _]]]; [lia | contradiction | contradiction].
    - rewrite DecodeEventRecord_short by lia. cbn [fst].
      split; [intros _; left; split; [reflexivity | exact HL] | reflexivity]. }
  destruct (Z.eq_dec tag UNIFIED2_PACKET) as [EP | EP].
  { rewrite dispatch_packet by exact EP. cbn [raw_Data].
    assert (HX : tag <> UNIFIED2_EXTRA_DATA)
      by (rewrite EP; discriminate).
    unfold DecodePacketRecord.
    destruct (le_lt_dec 28 len) as [HL | HL].
    - rewrite decode_packet_ok by (unfold PACKET_RECORD_HDR_LEN; lia).
      cbn [fst]. split; [discriminate|].
      intros [[H _] | [[_ H] | [H _]]]; [discriminate | lia | contradiction].
    - rewrite decode_packet_short by (unfold PACKET_RECORD_HDR_LEN; lia).
      cbn [fst]. split; [intros _; right; left; split; assumption|].
      reflexivity. }
  destruct (Z.eq_dec tag UNIFIED2_EXTRA_DATA) as [EX | EX].
  { rewrite dispatch_extra_data by exact EX. cbn [raw_Data].
    unfold DecodeExtraDataRecord.
    destruct (le_lt_dec 32 len) as [HL | HL].
    - rewrite decode_extra_data_ok
        by (unfold EXTRA_DATA_RECORD_HDR_LEN; lia).
      cbn [fst]. split; [discriminate|].
      intros [[H _] | [[H _] | [_ H]]]; [discriminate | contradiction | lia].
    - rewrite decode_extra_data_short
        by (unfold EXTRA_DATA_RECORD_HDR_LEN; lia).
      cbn [fst]. split; [intros _; right; right; split; assumption|].
      reflexivity. }
  rewrite dispatch_unknown by assumption. cbn [fst].
  split; [discriminate|].
  intros [[H _] | [[H _] | [H _]]]; [discriminate | contradiction..].
Qed.

Lemma ReadRecord_DecodingError_iff_witness :
  fst (ReadRecord sample_packet_file) = Err DecodingError
  <-> ((IsEventType (hdr_Type (header_at sample_packet_file)) = true
        /\ (Z.to_nat (hdr_Len (header_at sample_packet_file))
            < event_body_len (hdr_Type (header_at sample_packet_file)))%nat)
       \/ (hdr_Type (header_at sample_packet_file) = UNIFIED2_PACKET
           /\ (Z.to_nat (hdr_Len (header_at sample_packet_file)) < 28)%nat)
       \/ (hdr_Type (header_at sample_packet_file) = UNIFIED2_EXTRA_DATA
           /\ (Z.to_nat (hdr_Len (header_at sample_packet_file)) < 32)%nat)).
Proof.
  apply (ReadRecord_DecodingError_iff sample_packet_file).
  - vm_compute. lia.
  - vm_compute. lia.
Defined.

(** X17. The outcomes of the framer pass through [ReadRecord] as they
    are: [ReadRecord] returns [io.EOF] or [io.ErrUnexpectedEOF], and
    ends at a given stream, exactly when [ReadRawRecord] does; no
    decoder ever produces either of the two. *)
Theorem ReadRecord_framing_errors (file file' : File) (e : error)
    (He : e <> DecodingError) :
  ReadRecord file = (Err e, file') <-> ReadRawRecord file = (Err e, file').
Proof.
  unfold ReadRecord.
  destruct (ReadRawRecord file) as [[record | e0] file0];
    [|split; intros H; injection H as -> ->; reflexivity].
  destruct (dispatch record) as [[decoded|]|e1] eqn:ED.
  - split; discriminate.
  - split; discriminate.
  - apply dispatch_error in ED. subst e1.
    split; [intros H; congruence | discriminate].
Qed.

Lemma ReadRecord_framing_errors_witness :
  ReadRecord truncated_body = (Err EOF, truncated_body)
  <-> ReadRawRecord truncated_body = (Err EOF, truncated_body).
Proof.
  apply (ReadRecord_framing_errors truncated_body truncated_body EOF).
  discriminate.
Defined.

(** * The example loop of the package comment *)

Lemma ReadRecord_ok_consumes
    (file file' : File) (r : option RecordContainer) :
  ReadRecord file = (Ok r, file') ->
  (length (unread file') + 8 <= length (unread file))%nat.
Proof.
  intros H.
  assert (EF : file' = snd (ReadRawRecord file))
    by (rewrite <- ReadRecord_file, H; reflexivity).
  unfold ReadRecord in H.
  destruct (ReadRawRecord_outcomes file)
    as [(H8 & E) | [(H8 & E) | [(H8 & HB & HL & E) | [(H8 & HB & HC & E)
       | (H8 & HB & HM & E)]]]];
    rewrite E in H, EF; try discriminate.
  cbn [snd] in EF. subst file'.
  rewrite unread_advance, length_skipn. lia.
Qed.

Lemma main_enough_fuel (fuel : nat) :
  forall file,
    (length (unread file) < fuel)%nat ->
    snd (fst (main fuel file)) <> OutOfFuel
    /\ forall fuel',
        (length (unread file) < fuel')%nat ->
        main fuel' file = main fuel file.
Proof.
  induction fuel as [|fuel IH]; intros file H; [lia|].
  cbn [main].
  destruct (ReadRecord file) as [r file1] eqn:ER.
  destruct r as [[recordHolder|]|e].
  - pose proof (ReadRecord_ok_consumes _ _ _ ER) as HC.
    destruct (IH file1 ltac:(lia)) as [HE HI].
    split.
    + destruct (main fuel file1) as [[lines exit] file2]. exact HE.
    + intros [|fuel'] H'; [lia|].
      cbn [main]. rewrite ER. rewrite (HI fuel') by lia. reflexivity.
  - split; [discriminate|].
    intros [|fuel'] H'; [lia|]. cbn [main]. rewrite ER. reflexivity.
  - split; [destruct e; discriminate|].
    intros [|fuel'] H'; [lia|]. cbn [main]. rewrite ER. reflexivity.
Qed.

(** X18. The example loop ends on every file: each record that is read
    takes at least 8 bytes off what is left, so more turns than bytes
    left are never used up, and with that many the outcome (the lines
    logged, how the program ends and where the stream is) no longer
    depends on the bound. *)
Theorem main_terminates (fuel : nat) (file : File)
    (Hfuel : (length (unread file) < fuel)%nat) :
  snd (fst (main fuel file)) <> OutOfFuel
  /\ main fuel file = main (S (length (unread file))) file.
Proof.
  destruct (main_enough_fuel fuel file Hfuel) as [HE HI].
  split; [exact HE|].
  symmetry. apply HI. lia.
Qed.

Lemma main_terminates_witness :
  snd (fst (main 100 sample_event_file)) <> OutOfFuel
  /\ main 100 sample_event_file
     = main (S (length (unread sample_event_file))) sample_event_file.
Proof.
  apply (main_terminates 100 sample_event_file).
  vm_compute. lia.
Defined.

(** X19. The example loop panics on a record of unknown type: for a
    whole record of at most [maxRW] (2^30) declared bytes whose type is
    none of the six known ones [ReadRecord]
    returns a nil container and a nil error, and the loop dereferences
    the container.  Nothing is logged for it, and the stream is left
    behind the record. *)
Theorem main_panics_on_unknown_type (fuel : nat) (file : File)
    (Hheader : (8 <= length (unread file))%nat)
    (Hbody : (Z.to_nat (hdr_Len (header_at file))
              <= length (body_at file))%nat)
    (Hcap : hdr_Len (header_at file) <= maxRW)
    (Hevent : IsEventType (hdr_Type (header_at file)) = false)
    (Hpacket : hdr_Type (header_at file) <> UNIFIED2_PACKET)
    (Hextra : hdr_Type (header_at file) <> UNIFIED2_EXTRA_DATA) :
  main (S fuel) file
  = (([], Panic), advance file (8 + Z.to_nat (hdr_Len (header_at file)))).
Proof.
  cbn [main]. unfold ReadRecord.
  rewrite ReadRawRecord_ok by assumption.
  rewrite dispatch_unknown by assumption. reflexivity.
Qed.

Lemma main_panics_on_unknown_type_witness :
  main 5 unknown_record = (([], Panic), advance unknown_record (8 + 2)).
Proof.
  apply (main_panics_on_unknown_type 4 unknown_record).
  - vm_compute. lia.
  - vm_compute. lia.
  - vm_compute. discriminate.
  - reflexivity.
  - discriminate.
  - discriminate.
Defined.

(** X20. The example loop takes a file that ends in a whole header
    without any byte of its non-empty body for a file that ends
    cleanly: it breaks out on [io.EOF] and closes the file, logging
    nothing, with the stream back at the header.  With at least one
    byte of the body there it ends in [log.Fatal] on
    [io.ErrUnexpectedEOF] instead. *)
Theorem main_closes_on_header_without_body (fuel : nat) (file : File)
    (Hheader : (8 <= length (unread file))%nat)
    (Hlen : (length (body_at file)
             < Z.to_nat (hdr_Len (header_at file)))%nat) :
  main (S fuel) file
  = (([], if (length (body_at file) =? 0)%nat then Closed
          else Fatal ErrUnexpectedEOF), file).
Proof.
  cbn [main]. unfold ReadRecord.
  destruct (Nat.eqb_spec (length (body_at file)) 0) as [E | E].
  - apply length_nil_iff in E.
    rewrite ReadRawRecord_no_body by (try assumption; lia). reflexivity.
  - rewrite ReadRawRecord_short_body by (try assumption; lia). reflexivity.
Qed.

Lemma main_closes_on_header_without_body_witness :
  main 1 truncated_body = (([], Closed), truncated_body).
Proof.
  apply (main_closes_on_header_without_body 0 truncated_body).
  - vm_compute. lia.
  - vm_compute. lia.
Defined.

(** X21. On a file whose unread part is exactly one whole event record
    of at most [maxRW] (2^30) declared bytes, the example loop logs one event line with the event id found in
    bytes 4 to 7 of the body, then meets [io.EOF] and closes the file
    with the stream at the end of the record. *)
Theorem main_logs_one_event (fuel : nat) (file : File)
    (Hheader : (8 <= length (unread file))%nat)
    (Hbody : Z.to_nat (hdr_Len (header_at file)) = length (body_at file))
    (Hcap : hdr_Len (header_at file) <= maxRW)
    (Htag : IsEventType (hdr_Type (header_at file)) = true)
    (Hlen : (event_body_len (hdr_Type (header_at file))
             <= Z.to_nat (hdr_Len (header_at file)))%nat) :
  main (S (S fuel)) file
  = (([LogEvent (Uint32 (skipn 4 (body_at file)))], Closed),
     advance file (8 + length (body_at file))).
Proof.
  cbn [main]. unfold ReadRecord at 1.
  rewrite ReadRawRecord_ok by (try assumption; lia).
  rewrite dispatch_event by exact Htag. cbn [raw_Type raw_Data].
  rewrite DecodeEventRecord_ok by (rewrite length_firstn; lia).
  cbn [rc_Record log_record]. rewrite Hbody.
  unfold ReadRecord. rewrite ReadRawRecord_eof.
  - rewrite firstn_all. reflexivity.
  - rewrite unread_advance. rewrite (Nat.add_comm 8).
    rewrite <- skipn_skipn. apply skipn_all.
Qed.

Lemma main_logs_one_event_witness :
  main 2 sample_event_file
  = (([LogEvent 2], Closed), advance sample_event_file (8 + 52)).
Proof.
  apply (main_logs_one_event 0 sample_event_file).
  - vm_compute. lia.
  - reflexivity.
  - vm_compute. discriminate.
  - reflexivity.
  - vm_compute. lia.
Defined.
